(** * Batch-Resizer: the [ImageResizer] component

    A shallow embedding of [src/components/ImageResizer.jsx]: the admission
    handlers ([handleDrop], [handleFileInput]), the per-image transform
    ([resizeImage]) and the batch run ([processAndDownload]).

    JavaScript numbers are IEEE-754 binary64 values; they are modelled by
    Rocq's primitive floats, which are the same format with the same
    round-to-nearest-even division, multiplication and comparisons. *)

From Stdlib Require Import ZArith String List Bool Lia.
From Stdlib Require Import Floats.
Import ListNotations.

Local Open Scope string_scope.
Local Open Scope list_scope.

(** ** Numbers *)

Module Num.

(** The JS number holding an integer.  Exact for [|z| < 2^53]; pixel sizes
    (unsigned 32-bit), slider values and loop counters are far below. *)
Definition ofZ (z : Z) : float :=
  if (z <? 0)%Z
  then PrimFloat.opp (PrimFloat.of_uint63 (Uint63.of_Z (- z)))
  else PrimFloat.of_uint63 (Uint63.of_Z z).

Definition ofNat (n : nat) : float := ofZ (Z.of_nat n).

(** JS [a > b]. *)
Definition gtb (a b : float) : bool := PrimFloat.ltb b a.

(** [x] is a finite number with no fractional part. *)
Definition isInteger (x : float) : bool :=
  match Prim2SF x with
  | S754_zero _ => true
  | S754_finite _ m e =>
      (0 <=? e)%Z || (Z.pos m mod 2 ^ (- e) =? 0)%Z
  | _ => false
  end.

End Num.

(** ** Dimension computation (lines 61-75 of [resizeImage]) *)

Record Size := { targetWidth : float; targetHeight : float }.

(** [imgWidth], [imgHeight] are [img.width] and [img.height]; [width],
    [height] and [preserveAspectRatio] are the component's state. *)
Definition targetSize (imgWidth imgHeight : Z) (width height : Z)
    (preserveAspectRatio : bool) : Size :=
  let width := Num.ofZ width in
  let height := Num.ofZ height in
  if preserveAspectRatio then
    let originalAspectRatio := (Num.ofZ imgWidth / Num.ofZ imgHeight)%float in
    let targetAspectRatio := (width / height)%float in
    if Num.gtb originalAspectRatio targetAspectRatio then
      {| targetWidth := width;
         targetHeight := (width / originalAspectRatio)%float |}
    else
      {| targetWidth := (height * originalAspectRatio)%float;
         targetHeight := height |}
  else
    {| targetWidth := width; targetHeight := height |}.

(** ** Files, object URLs and the image list *)

Definition Blob := list Byte.byte.

Module File.
(** A browser [File]: [file.name], [file.type] (its MIME type) and its
    content; [file.size] is the length of the content. *)
Record t := { name : string; type : string; bytes : Blob }.
Definition size (f : t) : nat := length (bytes f).
End File.

(** [URL.createObjectURL(file)] registers [file] in the document's blob URL
    store and returns a fresh URL; the store is the list of registered files
    and a URL is a position in it. *)
Definition URL := nat.
Definition URLStore := list File.t.

Definition createObjectURL (file : File.t) (store : URLStore) : URL * URLStore :=
  (length store, store ++ [file]).

Definition resolveURL (store : URLStore) (u : URL) : option File.t :=
  nth_error store u.

Module Img.
(** An element of the [images] state: [{ file, preview, name, originalSize }]. *)
Record t := { file : File.t; preview : URL; name : string; originalSize : nat }.
End Img.

(** [imageFiles.map(file => ({ file, preview: URL.createObjectURL(file),
    name: file.name, originalSize: file.size }))], threading the URL store. *)
Fixpoint newImages (imageFiles : list File.t) (store : URLStore)
    : list Img.t * URLStore :=
  match imageFiles with
  | [] => ([], store)
  | file :: rest =>
      let (preview, store1) := createObjectURL file store in
      let (items, store2) := newImages rest store1 in
      ({| Img.file := file; Img.preview := preview;
          Img.name := File.name file; Img.originalSize := File.size file |}
       :: items, store2)
  end.

(** The part of the page the admission handlers read and write: the [images]
    state, the blob URL store and the alerts shown so far. *)
Record Page := {
  images : list Img.t;
  objectURLs : URLStore;
  alerts : list string
}.

(** [file.type.startsWith('image/')] *)
Definition isImageFile (file : File.t) : bool :=
  String.prefix "image/" (File.type file).

(** [Array.from(x || [])] for the [files] of an event, [None] when absent. *)
Definition filesOf (x : option (list File.t)) : list File.t :=
  match x with Some l => l | None => [] end.

(** [handleDrop]; the argument is [e.dataTransfer?.files]. *)
Definition handleDrop (dropped : option (list File.t)) (p : Page) : Page :=
  let files := filesOf dropped in
  let imageFiles := filter isImageFile files in
  if (30 <? length imageFiles)%nat then
    {| images := images p; objectURLs := objectURLs p;
       alerts := alerts p ++ ["Maximum 30 images allowed"] |}
  else
    let (created, store) := newImages imageFiles (objectURLs p) in
    {| images := firstn 30 (images p ++ created);
       objectURLs := store;
       alerts := alerts p |}.

(** [handleFileInput]; the argument is [e.target.files]. *)
Definition handleFileInput (selected : option (list File.t)) (p : Page) : Page :=
  let files := filesOf selected in
  let imageFiles := filter isImageFile files in
  if (30 <? length imageFiles)%nat then
    {| images := images p; objectURLs := objectURLs p;
       alerts := alerts p ++ ["Maximum 30 images allowed"] |}
  else
    let (created, store) := newImages imageFiles (objectURLs p) in
    {| images := firstn 30 (images p ++ created);
       objectURLs := store;
       alerts := alerts p |}.

(** ** The archive *)

Module JSZip.

(** Modelled from the spec: the archive library ([jszip]) is a dependency
    that is not part of the repository.  Following the data model, an
    archive holds "entries: mapping from entry-name to binary buffer
    (insertion order preserved)": a list of named buffers with at most one
    entry per name.  [file] appends an entry; for a name that is already
    present it replaces the buffer in place, as assigning to an existing
    key of a JS object does. *)
Definition t := list (string * Blob).

Definition empty : t := [].

Fixpoint file (zip : t) (name : string) (data : Blob) : t :=
  match zip with
  | [] => [(name, data)]
  | (k, v) :: rest =>
      if String.eqb k name then (k, data) :: rest
      else (k, v) :: file rest name data
  end.

Definition names (zip : t) : list string := map fst zip.

End JSZip.

(** ** The browser *)

(** A decoded [Image] element: the content it was loaded from and its
    [width] and [height]. *)
Record HTMLImage := { source : Blob; imgWidth : Z; imgHeight : Z }.

(** [ctx.drawImage(image, dx, dy, dWidth, dHeight)] *)
Record DrawImage := {
  drawnImage : HTMLImage; dx : float; dy : float; dWidth : float; dHeight : float
}.

(** A canvas: the values assigned to [canvas.width] and [canvas.height] and
    the draw calls made on its 2d context.  What the browser makes of a
    fractional size is outside the source; the model keeps the values the
    code hands over. *)
Record Canvas := {
  canvasWidth : float; canvasHeight : float; drawn : list DrawImage
}.

(** What the component asks of its environment.
    - [decode bytes] is the size of the image that [bytes] decode to, when
      an [Image] with that content fires [onload]; [None] when it never does.
    - [toBlob canvas type quality] is the blob [canvas.toBlob] hands to its
      callback.
    - [importJSZip] tells whether [import('jszip')] resolves.
    - [generateAsync zip] is the content [zip.generateAsync] resolves to,
      [None] when it rejects. *)
Record Browser := {
  decode : Blob -> option (Z * Z);
  toBlob : Canvas -> string -> float -> Blob;
  importJSZip : bool;
  generateAsync : JSZip.t -> option Blob
}.

(** ** Asynchronous computations with effects *)

Inductive Error := ImportError | GenerateError.

Inductive Effect :=
| SetIsProcessing (b : bool)
| SetProgress (p : float)
| ImgSrc (u : URL)                        (* img.src = image.preview *)
| ConsoleError (msg : string) (e : Error)
| Alert (msg : string)
| GenerateAsync (zip : JSZip.t)           (* zip.generateAsync(...) *)
| Download (filename : string) (content : Blob).

(** How an [async] function ends: it returns, it throws, or it stays
    suspended on a promise that never settles. *)
Inductive Outcome (A : Type) :=
| Returned (a : A)
| Thrown (e : Error)
| Pending.
Arguments Returned {A} a.
Arguments Thrown {A} e.
Arguments Pending {A}.

(** The effects performed, in order, and the outcome. *)
Definition Async (A : Type) : Type := list Effect * Outcome A.

Definition ret {A} (a : A) : Async A := ([], Returned a).

Definition bind {A B} (m : Async A) (k : A -> Async B) : Async B :=
  match snd m with
  | Returned a => (fst m ++ fst (k a), snd (k a))
  | Thrown e => (fst m, Thrown e)
  | Pending => (fst m, Pending)
  end.

Definition emit (e : Effect) : Async unit := ([e], Returned tt).

Definition throw {A} (e : Error) : Async A := ([], Thrown e).

(** [await p] for a promise that resolves to [a] ([Some a]) or never
    settles ([None]). *)
Definition await {A} (p : option A) : Async A :=
  match p with Some a => ret a | None => ([], Pending) end.

Declare Scope async_scope.
Delimit Scope async_scope with async.
Notation "x <- m ;; k" := (bind m (fun x => k))
  (at level 61, m at next level, right associativity) : async_scope.
Notation "m ;; k" := (bind m (fun _ => k))
  (at level 61, right associativity) : async_scope.
Local Open Scope async_scope.

(** [try { body } catch (error) { handler } finally { finalizer }]: neither
    the handler nor the finalizer runs while the body is suspended. *)
Definition tryCatchFinally {A} (body : Async A) (handler : Error -> Async A)
    (finalizer : Async unit) : Async A :=
  let guarded :=
    match snd body with
    | Thrown e => (fst body ++ fst (handler e), snd (handler e))
    | _ => body
    end in
  match snd guarded with
  | Returned a => (fst guarded, Returned tt) ;; finalizer ;; ret a
  | Thrown e => (fst guarded, Returned tt) ;; finalizer ;; throw e
  | Pending => guarded
  end.

(** ** [resizeImage] and [processAndDownload] *)

(** The component state the transform reads: [width], [height] and
    [preserveAspectRatio]. *)
Record Settings := { width : Z; height : Z; preserveAspectRatio : bool }.

Module Processed.
(** What [resizeImage] resolves to: [{ blob, name }]. *)
Record t := { blob : Blob; name : string }.
End Processed.

(** [img.src = url] followed by [img.onload]: the URL is resolved in the blob
    URL store and the content decoded; [None] when [onload] never fires. *)
Definition loadImage (B : Browser) (store : URLStore) (src : URL)
    : option HTMLImage :=
  match resolveURL store src with
  | Some f =>
      match decode B (File.bytes f) with
      | Some (w, h) =>
          Some {| source := File.bytes f; imgWidth := w; imgHeight := h |}
      | None => None
      end
  | None => None
  end.

(** The quality passed to [toBlob], the double written [0.85]. *)
Definition jpegQuality : float := 0x1.b333333333333p-1%float.

(** The canvas [resizeImage] prepares for a loaded image: [canvas.width] and
    [canvas.height] are assigned the target size and the image is drawn at
    the origin with that same size. *)
Definition resizeCanvas (cfg : Settings) (img : HTMLImage) : Canvas :=
  let size := targetSize (imgWidth img) (imgHeight img)
                (width cfg) (height cfg) (preserveAspectRatio cfg) in
  {| canvasWidth := targetWidth size;
     canvasHeight := targetHeight size;
     drawn := [ {| drawnImage := img; dx := 0; dy := 0;
                   dWidth := targetWidth size;
                   dHeight := targetHeight size |} ] |}.

(** [resizeImage]: the promise resolves in [img.onload] only; there is no
    [onerror] handler, so it stays pending when the image does not load. *)
Definition resizeImage (B : Browser) (store : URLStore) (cfg : Settings)
    (item : Img.t) : Async Processed.t :=
  emit (ImgSrc (Img.preview item)) ;;
  img <- await (loadImage B store (Img.preview item)) ;;
  let canvas := resizeCanvas cfg img in
  ret {| Processed.blob := toBlob B canvas "image/jpeg" jpegQuality;
         Processed.name := Img.name item |}.

(** The value passed to [setProgress] after item [i] of [len]. *)
Definition progressAfter (i len : nat) : float :=
  ((Num.ofNat (i + 1) / Num.ofNat len) * 100)%float.

(** [for (let i = 0; i < images.length; i++) { ... }]: [rest] is
    [images[i..]] and [len] is [images.length]. *)
Fixpoint forLoop (B : Browser) (store : URLStore) (cfg : Settings)
    (len i : nat) (rest : list Img.t) (processedImages : list Processed.t)
    : Async (list Processed.t) :=
  match rest with
  | [] => ret processedImages
  | item :: rest' =>
      processed <- resizeImage B store cfg item ;;
      let processedImages := processedImages ++ [processed] in
      emit (SetProgress (progressAfter i len)) ;;
      forLoop B store cfg len (S i) rest' processedImages
  end.

(** [processedImages.forEach(({ blob, name }) => zip.file(`resized-${name}`, blob))] *)
Definition addAll (zip : JSZip.t) (processedImages : list Processed.t) : JSZip.t :=
  fold_left
    (fun zip p => JSZip.file zip ("resized-" ++ Processed.name p)%string
                    (Processed.blob p))
    processedImages zip.

(** [processAndDownload].  Creating the object URL of the content, clicking
    the anchor with [download = 'resized-images.zip'] and revoking the URL
    are one [Download] effect. *)
Definition processAndDownload (B : Browser) (store : URLStore) (cfg : Settings)
    (imgs : list Img.t) : Async unit :=
  emit (SetIsProcessing true) ;;
  emit (SetProgress 0) ;;
  tryCatchFinally
    ( zip <- (if importJSZip B then ret JSZip.empty else throw ImportError) ;;
      processedImages <- forLoop B store cfg (length imgs) 0 imgs [] ;;
      let zip := addAll zip processedImages in
      emit (GenerateAsync zip) ;;
      content <- match generateAsync B zip with
                 | Some c => ret c
                 | None => throw GenerateError
                 end ;;
      emit (Download "resized-images.zip" content) )
    (fun error =>
       emit (ConsoleError "Error processing images:" error) ;;
       emit (Alert "Error processing images. Please try again."))
    ( emit (SetIsProcessing false) ;;
      emit (SetProgress 0) ).

(** ** Observations on a run *)

Definition effects {A} (r : Async A) : list Effect := fst r.
Definition outcome {A} (r : Async A) : Outcome A := snd r.

(** The values passed to [setProgress], in order. *)
Definition progressValues (l : list Effect) : list float :=
  flat_map (fun e => match e with SetProgress p => [p] | _ => [] end) l.

(** The URLs assigned to [img.src], in order. *)
Definition loads (l : list Effect) : list URL :=
  flat_map (fun e => match e with ImgSrc u => [u] | _ => [] end) l.

(** The archives offered for download. *)
Definition downloads (l : list Effect) : list (string * Blob) :=
  flat_map (fun e => match e with Download n c => [(n, c)] | _ => [] end) l.

(** The archives [generateAsync] was called on. *)
Definition archives (l : list Effect) : list JSZip.t :=
  flat_map (fun e => match e with GenerateAsync z => [z] | _ => [] end) l.

Definition alertsOf (l : list Effect) : list string :=
  flat_map (fun e => match e with Alert m => [m] | _ => [] end) l.

(** A run completes normally when [processAndDownload] returns without
    having reported an error. *)
Definition completedNormally (r : Async unit) : Prop :=
  outcome r = Returned tt /\ alertsOf (effects r) = [].


(** What [resizeImage] resolves to for [item]; [None] when its image never
    loads. *)
Definition transcode (B : Browser) (store : URLStore) (cfg : Settings)
    (item : Img.t) : option Processed.t :=
  match loadImage B store (Img.preview item) with
  | Some img =>
      Some {| Processed.blob :=
                toBlob B (resizeCanvas cfg img) "image/jpeg" jpegQuality;
              Processed.name := Img.name item |}
  | None => None
  end.

(** [transcoded B store cfg items ps]: every item loads, and [ps] are the
    results, in order. *)
Definition transcoded (B : Browser) (store : URLStore) (cfg : Settings)
    (items : list Img.t) (ps : list Processed.t) : Prop :=
  Forall2 (fun item p => transcode B store cfg item = Some p) items ps.

(** The effects of the loop over items that all load, the first of them
    being item [i] of [len]: one load, then one progress report, per item. *)
Fixpoint loopEffects (len i : nat) (items : list Img.t) : list Effect :=
  match items with
  | [] => []
  | item :: rest =>
      ImgSrc (Img.preview item) :: SetProgress (progressAfter i len)
      :: loopEffects len (S i) rest
  end.

(** The archive entry of a processed image. *)
Definition entryOf (p : Processed.t) : string * Blob :=
  (("resized-" ++ Processed.name p)%string, Processed.blob p).

Fixpoint nondecreasing (l : list float) : Prop :=
  match l with
  | a :: (b :: _) as rest => PrimFloat.leb a b = true /\ nondecreasing rest
  | _ => True
  end.

(** The values the loop reports for a batch of [n] items. *)
Definition loopProgress (n : nat) : list float :=
  map (fun i => progressAfter i n) (seq 0 n).

(** [v] lies between 0 and 100. *)
Definition percentage (v : float) : Prop :=
  PrimFloat.leb 0 v = true /\ PrimFloat.leb v 100 = true.

(** What the [catch] and [finally] blocks do for error [e]. *)
Definition errorReport (e : Error) : list Effect :=
  [ ConsoleError "Error processing images:" e;
    Alert "Error processing images. Please try again.";
    SetIsProcessing false; SetProgress 0 ].

(** The integers [lo], [lo + 1], ..., [lo + n - 1]. *)
Definition rangeZ (lo : Z) (n : nat) : list Z :=
  map (fun k => (lo + Z.of_nat k)%Z) (seq 0 n).


(** ** A small concrete browser, for running the model *)

Module Demo.

(** A toy image format: the byte ["I"], then the width and the height on
    two bytes each (big endian), then anything.  Other contents never
    load. *)
Definition num2 (hi lo : Byte.byte) : Z :=
  (Z.of_N (Byte.to_N hi) * 256 + Z.of_N (Byte.to_N lo))%Z.

Definition toyDecode (b : Blob) : option (Z * Z) :=
  match b with
  | Byte.x49 :: wh :: wl :: hh :: hl :: _ => Some (num2 wh wl, num2 hh hl)
  | _ => None
  end.

(** A toy encoder: the content of the drawn images, preceded by one byte
    telling whether both canvas dimensions are integers. *)
Definition toyToBlob (c : Canvas) (type : string) (quality : float) : Blob :=
  (if Num.isInteger (canvasWidth c) && Num.isInteger (canvasHeight c)
   then Byte.x01 else Byte.x00)
  :: flat_map (fun d => source (drawnImage d)) (drawn c).

(** A toy serializer: every entry as its name, a zero byte and its data. *)
Definition toyGenerate (zip : JSZip.t) : option Blob :=
  Some (flat_map (fun e => list_byte_of_string (fst e) ++ Byte.x00 :: snd e) zip).

Definition browser : Browser :=
  {| decode := toyDecode; toBlob := toyToBlob; importJSZip := true;
     generateAsync := toyGenerate |}.

Definition png (name : string) (content : Blob) : File.t :=
  {| File.name := name; File.type := "image/png"; File.bytes := content |}.

(** a 400x300 image, a 100x800 image and a corrupt one *)
Definition img400x300 : Blob :=
  [Byte.x49; Byte.x01; Byte.x90; Byte.x01; Byte.x2c; Byte.xff].
Definition img100x800 : Blob :=
  [Byte.x49; Byte.x00; Byte.x64; Byte.x03; Byte.x20; Byte.xee].
Definition corrupt : Blob := [Byte.x00; Byte.x01].

Definition emptyPage : Page := {| images := []; objectURLs := []; alerts := [] |}.

Definition defaults : Settings :=
  {| width := 800; height := 600; preserveAspectRatio := true |}.

Definition pageAB : Page :=
  handleDrop (Some [png "a.png" img400x300; png "b.png" img400x300]) emptyPage.

(** the item made from file [f] with object URL [u] *)
Definition item (u : URL) (f : File.t) : Img.t :=
  {| Img.file := f; Img.preview := u;
     Img.name := File.name f; Img.originalSize := File.size f |}.

Definition pageBad : Page :=
  handleDrop (Some [png "a.png" img400x300; png "bad.png" corrupt;
                    png "c.png" img100x800]) emptyPage.

(** [n] image files named "A.png", "B.png", ... and a text file *)
Definition pngs (n : nat) : list File.t :=
  map (fun k => png (String (Ascii.ascii_of_nat (65 + k)) ".png") img400x300)
      (seq 0 n).
Definition notes : File.t :=
  {| File.name := "notes.txt"; File.type := "text/plain";
     File.bytes := [Byte.x68; Byte.x69] |}.

Definition run (p : Page) : Async unit :=
  processAndDownload browser (objectURLs p) defaults (images p).

(** an 800x600 image *)
Definition img800x600 : Blob :=
  [Byte.x49; Byte.x03; Byte.x20; Byte.x02; Byte.x58; Byte.xaa].

(** a batch in which a name repeats: [a.png] and [b.png] are dropped, then
    another file named [a.png] is picked in the file input *)
Definition pageDup : Page :=
  handleFileInput (Some [png "a.png" img100x800])
    (handleDrop (Some [png "a.png" img400x300; png "b.png" img800x600])
       emptyPage).



End Demo.

(** ** The rest of the component *)

(** [prev.filter((_, i) => i !== index)], where the first element of [l] has
    index [start]. *)
Fixpoint filterOut {A} (index start : nat) (l : list A) : list A :=
  match l with
  | [] => []
  | x :: rest =>
      if negb (start =? index)%nat then x :: filterOut index (S start) rest
      else filterOut index (S start) rest
  end.

(** [removeImage] *)
Definition removeImage (index : nat) (p : Page) : Page :=
  {| images := filterOut index 0 (images p);
     objectURLs := objectURLs p;
     alerts := alerts p |}.

(** What the user can do to the image list: drop files on the drop zone
    ([onDrop]), pick files in the file input ([onChange]) or click the
    remove button of an image ([onClick]). *)
Inductive Action :=
| Drop (files : option (list File.t))
| FileInput (files : option (list File.t))
| Remove (index : nat).

Definition dispatch (p : Page) (a : Action) : Page :=
  match a with
  | Drop files => handleDrop files p
  | FileInput files => handleFileInput files p
  | Remove index => removeImage index p
  end.

Definition afterActions (actions : list Action) (p : Page) : Page :=
  fold_left dispatch actions p.

(** An item as the handlers make them: its preview resolves to its file, its
    name and size are the file's, and the file is an image file. *)
Definition itemOK (store : URLStore) (item : Img.t) : Prop :=
  resolveURL store (Img.preview item) = Some (Img.file item)
  /\ Img.name item = File.name (Img.file item)
  /\ Img.originalSize item = File.size (Img.file item)
  /\ isImageFile (Img.file item) = true.

Definition wellFormed (p : Page) : Prop :=
  length (images p) <= 30
  /\ NoDup (map Img.preview (images p))
  /\ Forall (itemOK (objectURLs p)) (images p).

(** ** What the page shows *)

(** The state a run writes: [isProcessing] and [progress]. *)
Record Status := { isProcessing : bool; progress : float }.

(** [useState(false)] and [useState(0)] *)
Definition initialStatus : Status :=
  {| isProcessing := false; progress := 0 |}.

(** The state after one effect: [setIsProcessing] and [setProgress] write
    their field, the other effects leave the state alone. *)
Definition setState (s : Status) (e : Effect) : Status :=
  match e with
  | SetIsProcessing b => {| isProcessing := b; progress := progress s |}
  | SetProgress v => {| isProcessing := isProcessing s; progress := v |}
  | _ => s
  end.

(** The states after each effect of [l], in order, starting from [s]. *)
Fixpoint statuses (s : Status) (l : list Effect) : list Status :=
  match l with
  | [] => []
  | e :: rest => setState s e :: statuses (setState s e) rest
  end.

(** [disabled={images.length === 0 || isProcessing}] of the download
    button. *)
Definition downloadDisabled (imgs : list Img.t) (s : Status) : bool :=
  (length imgs =? 0)%nat || isProcessing s.

(** [isProcessing && progress > 0 && ...]: whether the progress bar is
    rendered. *)
Definition progressBarShown (s : Status) : bool :=
  isProcessing s && Num.gtb (progress s) 0.

(** [Math.round]: the integer nearest to [x], the upper one when two are
    equally near; [-0] for a negative [x] that rounds to zero; [x] itself
    when it is an integer, infinite or not a number. *)
Definition Math_round (x : float) : float :=
  match Prim2SF x with
  | S754_finite s m e =>
      if (0 <=? e)%Z then x
      else
        let d := (2 ^ (- e))%Z in
        let v := if s then (- Z.pos m)%Z else Z.pos m in
        let q := ((2 * v + d) / (2 * d))%Z in
        if (q =? 0)%Z && s then PrimFloat.opp 0 else Num.ofZ q
  | _ => x
  end.

(** The number in the label [Processing (N%)] of the button while
    processing; [None] when it reads [Download All Images]. *)
Definition processingLabel (s : Status) : option float :=
  if isProcessing s then Some (Math_round (progress s)) else None.

(** The values of the two range inputs: [min="100" max="2000" step="50"]. *)
Definition sliderValues : list Z :=
  map (fun k => (100 + 50 * Z.of_nat k)%Z) (seq 0 39).

(** What is displayed after item [i] of [n], checked as a boolean: the bar
    is shown, the label is a whole number from 1 to 100, it is not below
    the label before it, and it is 100 after the last item. *)
Definition displayCheck (n i : nat) : bool :=
  let after k := {| isProcessing := true; progress := progressAfter k n |} in
  let label k := Math_round (progressAfter k n) in
  progressBarShown (after i)
  && Num.isInteger (label i)
  && PrimFloat.leb 1 (label i) && PrimFloat.leb (label i) 100
  && (if (i =? 0)%nat then true else PrimFloat.leb (label (i - 1)) (label i))
  && (if (S i =? n)%nat then PrimFloat.eqb (label i) 100 else true).

(** An image [k] times the box [w] x [h] is planned at the height [h] and at
    a width within one unit in the last place of [w], checked as a
    boolean. *)
Definition sameRatioCheck (w h k : Z) : bool :=
  let planned := targetSize (k * w) (k * h) w h true in
  PrimFloat.eqb (targetHeight planned) (Num.ofZ h)
  && PrimFloat.leb (PrimFloat.next_down (Num.ofZ w)) (targetWidth planned)
  && PrimFloat.leb (targetWidth planned) (PrimFloat.next_up (Num.ofZ w)).

(** ** Entries and their order *)

(** The names of [l], each once, in the order in which it first appears. *)
Definition firstAppearance (l : list string) : list string :=
  fold_left
    (fun seen n => if existsb (String.eqb n) seen then seen else seen ++ [n])
    l [].

(** [entry] is the archive entry of [item]: its name is ["resized-"]
    followed by the item's name and its content is the blob encoded from
    the item's canvas. *)
Definition entryFor (B : Browser) (store : URLStore) (cfg : Settings)
    (item : Img.t) (entry : string * Blob) : Prop :=
  exists img,
    loadImage B store (Img.preview item) = Some img
    /\ entry
       = (("resized-" ++ Img.name item)%string,
          toBlob B (resizeCanvas cfg img) "image/jpeg" jpegQuality).

(** Two browsers decode and encode alike, and the import of the archive
    library succeeds in both or in neither; their serializers may differ. *)
Definition sameCodec (B1 B2 : Browser) : Prop :=
  (forall bytes, decode B1 bytes = decode B2 bytes)
  /\ (forall canvas type quality,
        toBlob B1 canvas type quality = toBlob B2 canvas type quality)
  /\ importJSZip B1 = importJSZip B2.

(** * Properties *)

(** ** Checking a property of integers on a bounded range by evaluation *)

Lemma rangeZ_In (lo : Z) (n : nat) (z : Z) :
  (lo <= z < lo + Z.of_nat n)%Z -> In z (rangeZ lo n).
Proof.
  intros Hz. unfold rangeZ.
  apply in_map_iff. exists (Z.to_nat (z - lo)).
  split; [ lia | apply in_seq; lia ].
Qed.

Lemma forall_rangeZ (f : Z -> bool) (lo : Z) (n : nat) :
  forallb f (rangeZ lo n) = true ->
  forall z, (lo <= z < lo + Z.of_nat n)%Z -> f z = true.
Proof.
  intros Hall z Hz. rewrite forallb_forall in Hall.
  apply Hall, rangeZ_In, Hz.
Qed.

(** Every bound the sliders can produce is held exactly by its double:
    an integer, and at least 1. *)
Lemma bound_is_integer (z : Z) :
  (1 <= z <= 2000)%Z ->
  Num.isInteger (Num.ofZ z) = true /\ PrimFloat.leb 1 (Num.ofZ z) = true.
Proof.
  intros Hz. apply andb_true_iff.
  apply (forall_rangeZ
           (fun z => Num.isInteger (Num.ofZ z) && PrimFloat.leb 1 (Num.ofZ z))
           1 2000); [ vm_compute; reflexivity | lia ].
Qed.

(** ** Dimension computation *)

Example targetSize_400x300 :
  targetSize 400 300 800 600 true
  = {| targetWidth := 800%float; targetHeight := 600%float |}.
Proof. vm_compute. reflexivity. Qed.

Example targetSize_100x800 :
  targetSize 100 800 800 100 true
  = {| targetWidth := 12.5%float; targetHeight := 100%float |}.
Proof. vm_compute. reflexivity. Qed.

Example isInteger_ex :
  Num.isInteger 12.5%float = false /\ Num.isInteger 800%float = true
  /\ Num.isInteger 0%float = true /\ Num.isInteger 0.25%float = false.
Proof. vm_compute. repeat split. Qed.

Section Dimensions.

Variables originalWidth originalHeight : Z.
Variables requestWidth requestHeight : Z.

(** C1.  With [preserveAspectRatio] set and a positive original size: when
    the original ratio exceeds the target ratio the planned width is the
    requested width and the planned height is that width divided by the
    original ratio; otherwise the planned height is the requested height
    and the planned width is that height times the original ratio. *)
Theorem C1_aspect_ratio_branches :
  (0 < originalWidth)%Z -> (0 < originalHeight)%Z ->
  let originalRatio := (Num.ofZ originalWidth / Num.ofZ originalHeight)%float in
  let targetRatio := (Num.ofZ requestWidth / Num.ofZ requestHeight)%float in
  let planned :=
    targetSize originalWidth originalHeight requestWidth requestHeight true in
  (Num.gtb originalRatio targetRatio = true ->
     targetWidth planned = Num.ofZ requestWidth /\
     targetHeight planned = (Num.ofZ requestWidth / originalRatio)%float)
  /\
  (Num.gtb originalRatio targetRatio = false ->
     targetHeight planned = Num.ofZ requestHeight /\
     targetWidth planned = (Num.ofZ requestHeight * originalRatio)%float).
Proof.
  intros _ _ originalRatio targetRatio planned.
  subst planned originalRatio targetRatio.
  unfold targetSize.
  split; intros Hcmp; rewrite Hcmp; split; reflexivity.
Qed.

(** C2.  Without [preserveAspectRatio] the planned size is the requested
    width and height, whatever the original size; the canvas takes that size
    and the image is drawn over all of it. *)
Theorem C2_exact_box :
  targetSize originalWidth originalHeight requestWidth requestHeight false
  = {| targetWidth := Num.ofZ requestWidth;
       targetHeight := Num.ofZ requestHeight |}
  /\ forall content : Blob,
       let img := {| source := content; imgWidth := originalWidth;
                     imgHeight := originalHeight |} in
       resizeCanvas {| width := requestWidth; height := requestHeight;
                       preserveAspectRatio := false |} img
       = {| canvasWidth := Num.ofZ requestWidth;
            canvasHeight := Num.ofZ requestHeight;
            drawn := [ {| drawnImage := img; dx := 0; dy := 0;
                          dWidth := Num.ofZ requestWidth;
                          dHeight := Num.ofZ requestHeight |} ] |}.
Proof. split; [ | intros content img ]; reflexivity. Qed.

(** One side of the planned size is always the requested bound. *)
Lemma targetSize_pinned (preserve : bool) :
  let planned :=
    targetSize originalWidth originalHeight requestWidth requestHeight
      preserve in
  targetWidth planned = Num.ofZ requestWidth
  \/ targetHeight planned = Num.ofZ requestHeight.
Proof.
  unfold targetSize. destruct preserve; [ | now left ].
  destruct (Num.gtb _ _); [ now left | now right ].
Qed.

End Dimensions.

Lemma C1_aspect_ratio_branches_witness :
  let planned := targetSize 400 300 800 600 true in
  targetHeight planned = 600%float /\
  targetWidth planned = (600 * (400 / 300))%float.
Proof.
  apply (C1_aspect_ratio_branches 400 300 800 600); [ lia | lia | ].
  vm_compute. reflexivity.
Defined.

(** ** The size handed to the canvas *)

(** C6, as the code has it.  The canvas size and the extent passed to
    [drawImage] are the planned width and height exactly as computed: no
    rounding and no minimum is applied.  For a request within the slider
    range, the side pinned to the request is an integer of at least 1 (both
    sides are when [preserveAspectRatio] is off); the other side is used
    with whatever value the ratio computation gives. *)
Theorem C6_size_used_as_computed (cfg : Settings) (img : HTMLImage) :
  (1 <= width cfg <= 2000)%Z -> (1 <= height cfg <= 2000)%Z ->
  let planned :=
    targetSize (imgWidth img) (imgHeight img) (width cfg) (height cfg)
      (preserveAspectRatio cfg) in
  let canvas := resizeCanvas cfg img in
  let wholeAtLeast1 x :=
    Num.isInteger x = true /\ PrimFloat.leb 1 x = true in
  canvasWidth canvas = targetWidth planned
  /\ canvasHeight canvas = targetHeight planned
  /\ drawn canvas = [ {| drawnImage := img; dx := 0; dy := 0;
                         dWidth := targetWidth planned;
                         dHeight := targetHeight planned |} ]
  /\ (wholeAtLeast1 (canvasWidth canvas) \/ wholeAtLeast1 (canvasHeight canvas))
  /\ (preserveAspectRatio cfg = false ->
      wholeAtLeast1 (canvasWidth canvas) /\ wholeAtLeast1 (canvasHeight canvas)).
Proof.
  intros Hw Hh planned canvas wholeAtLeast1.
  pose proof (bound_is_integer _ Hw) as Iw.
  pose proof (bound_is_integer _ Hh) as Ih.
  split; [ reflexivity | ]. split; [ reflexivity | ].
  split; [ reflexivity | ]. split.
  - destruct (targetSize_pinned (imgWidth img) (imgHeight img)
                (width cfg) (height cfg) (preserveAspectRatio cfg)) as [E | E];
      [ left | right ]; unfold wholeAtLeast1, canvas; simpl; rewrite E;
      assumption.
  - intros Hoff. unfold wholeAtLeast1, canvas, resizeCanvas.
    rewrite Hoff. split; assumption.
Qed.

Lemma C6_size_used_as_computed_witness :
  let canvas :=
    resizeCanvas {| width := 800; height := 100; preserveAspectRatio := true |}
      {| source := Demo.img100x800; imgWidth := 100; imgHeight := 800 |} in
  canvasWidth canvas = 12.5%float /\ canvasHeight canvas = 100%float.
Proof.
  destruct (C6_size_used_as_computed
              {| width := 800; height := 100; preserveAspectRatio := true |}
              {| source := Demo.img100x800; imgWidth := 100; imgHeight := 800 |})
    as (Ew & Eh & _); [ simpl; lia | simpl; lia | ].
  split; [ rewrite Ew | rewrite Eh ]; vm_compute; reflexivity.
Defined.

(** C6 does not hold as stated.  A 100x800 image in an 800x100 box is drawn
    12.5 wide, which is not an integer (rounding half up would give 13); a
    1x2048 image in a 100x100 box is drawn 0.048828125 wide, below the
    minimum of 1. *)
Lemma C6_counterexample :
  (let canvas :=
     resizeCanvas {| width := 800; height := 100; preserveAspectRatio := true |}
       {| source := []; imgWidth := 100; imgHeight := 800 |} in
   canvasWidth canvas = 12.5%float
   /\ map dWidth (drawn canvas) = [12.5%float]
   /\ Num.isInteger (canvasWidth canvas) = false)
  /\
  (let canvas :=
     resizeCanvas {| width := 100; height := 100; preserveAspectRatio := true |}
       {| source := []; imgWidth := 1; imgHeight := 2048 |} in
   canvasWidth canvas = 0.048828125%float
   /\ map dWidth (drawn canvas) = [0.048828125%float]
   /\ PrimFloat.leb 1 (canvasWidth canvas) = false).
Proof. vm_compute. repeat split. Qed.

(** ** Admission *)

Lemma prefix_app (p s : string) :
  String.prefix p s = true -> exists rest, s = (p ++ rest)%string.
Proof.
  revert s. induction p as [ | c p IH ]; intros s H.
  - exists s. reflexivity.
  - destruct s as [ | d s ]; [ discriminate | ]. simpl in H.
    destruct (Ascii.ascii_dec c d) as [ -> | ]; [ | discriminate ].
    destruct (IH s H) as [rest ->]. exists rest. reflexivity.
Qed.

Lemma newImages_files (fs : list File.t) (store : URLStore) :
  map Img.file (fst (newImages fs store)) = fs.
Proof.
  revert store. induction fs as [ | f fs IH ]; intros store; simpl.
  - reflexivity.
  - specialize (IH (store ++ [f])).
    destruct (newImages fs (store ++ [f])) as [items store2]. simpl in *.
    now rewrite IH.
Qed.

Lemma newImages_store (fs : list File.t) (store : URLStore) :
  snd (newImages fs store) = store ++ fs.
Proof.
  revert store. induction fs as [ | f fs IH ]; intros store; simpl.
  - now rewrite app_nil_r.
  - specialize (IH (store ++ [f])).
    destruct (newImages fs (store ++ [f])) as [items store2]. simpl in *.
    now rewrite IH, <- app_assoc.
Qed.

Lemma newImages_previews (fs : list File.t) (store : URLStore) :
  map Img.preview (fst (newImages fs store)) = seq (length store) (length fs).
Proof.
  revert store. induction fs as [ | f fs IH ]; intros store; simpl.
  - reflexivity.
  - specialize (IH (store ++ [f])).
    destruct (newImages fs (store ++ [f])) as [items store2]. simpl in *.
    rewrite IH, length_app. simpl. now rewrite Nat.add_1_r.
Qed.

Lemma handleFileInput_handleDrop (files : option (list File.t)) (p : Page) :
  handleFileInput files p = handleDrop files p.
Proof. reflexivity. Qed.

Lemma handleDrop_rejects (files : option (list File.t)) (p : Page) :
  30 < length (filter isImageFile (filesOf files)) ->
  handleDrop files p
  = {| images := images p; objectURLs := objectURLs p;
       alerts := alerts p ++ ["Maximum 30 images allowed"] |}.
Proof.
  intros H. unfold handleDrop.
  now apply Nat.ltb_lt in H as ->.
Qed.

Lemma handleDrop_admits (files : option (list File.t)) (p : Page) :
  length (filter isImageFile (filesOf files)) <= 30 ->
  handleDrop files p
  = {| images :=
         firstn 30 (images p
                    ++ fst (newImages (filter isImageFile (filesOf files))
                              (objectURLs p)));
       objectURLs := objectURLs p ++ filter isImageFile (filesOf files);
       alerts := alerts p |}.
Proof.
  intros H. unfold handleDrop.
  apply Nat.ltb_ge in H as ->.
  rewrite <- (newImages_store (filter isImageFile (filesOf files)) (objectURLs p)).
  now destruct (newImages _ _).
Qed.

(** The batch never grows beyond 30 items. *)
Lemma handleDrop_length (files : option (list File.t)) (p : Page) :
  length (images p) <= 30 -> length (images (handleDrop files p)) <= 30.
Proof.
  intros Hp.
  destruct (Nat.lt_ge_cases 30 (length (filter isImageFile (filesOf files))))
    as [H | H].
  - now rewrite handleDrop_rejects.
  - rewrite handleDrop_admits by assumption. cbn [images].
    rewrite length_firstn. lia.
Qed.

(** C3, as the code has it.  The cap is checked on the image files of one
    drop or selection.  More than 30 of them: the operation is refused with
    an alert, no item and no object URL is created, and the batch is left as
    it was.  At most 30: an item and an object URL are created for every one
    of them, the items are appended to the batch, and the batch is then cut
    to its first 30 items without notice.  Either way a batch of at most 30
    items stays one. *)
Theorem C3_cap_on_image_files (files : option (list File.t)) (p : Page) :
  let imageFiles := filter isImageFile (filesOf files) in
  let p' := handleDrop files p in
  handleFileInput files p = p'
  /\ (30 < length imageFiles ->
      images p' = images p
      /\ objectURLs p' = objectURLs p
      /\ alerts p' = alerts p ++ ["Maximum 30 images allowed"])
  /\ (length imageFiles <= 30 ->
      let created := fst (newImages imageFiles (objectURLs p)) in
      map Img.file created = imageFiles
      /\ objectURLs p' = objectURLs p ++ imageFiles
      /\ images p' = firstn 30 (images p ++ created)
      /\ alerts p' = alerts p)
  /\ (length (images p) <= 30 -> length (images p') <= 30).
Proof.
  intros imageFiles p'. subst p'.
  split; [ reflexivity | ].
  split; [ | split ].
  - intros H. now rewrite handleDrop_rejects.
  - intros H created. rewrite handleDrop_admits by assumption.
    cbn [images objectURLs alerts].
    split; [ apply newImages_files | repeat split ].
  - apply handleDrop_length.
Qed.

Lemma C3_cap_on_image_files_witness :
  images (handleDrop (Some (Demo.pngs 31)) Demo.emptyPage) = []
  /\ length (images (handleDrop (Some (Demo.pngs 2)) Demo.emptyPage)) <= 30.
Proof.
  destruct (C3_cap_on_image_files (Some (Demo.pngs 31)) Demo.emptyPage)
    as (_ & Refused & _ & _).
  destruct (C3_cap_on_image_files (Some (Demo.pngs 2)) Demo.emptyPage)
    as (_ & _ & _ & Bounded).
  split.
  - apply Refused. vm_compute. lia.
  - apply Bounded. simpl. lia.
Defined.

(** C3 does not hold as stated.  An input of 31 files of which one is not an
    image is admitted: 30 items are created and nothing is reported.  And
    with one image already in the batch, a drop of 30 images creates 30 items
    and object URLs, after which the batch is cut to 30 and the last item
    disappears without notice. *)
Lemma C3_counterexample :
  (let files := Demo.pngs 30 ++ [Demo.notes] in
   let p' := handleDrop (Some files) Demo.emptyPage in
   length files = 31
   /\ length (images p') = 30
   /\ alerts p' = [])
  /\
  (let p := handleDrop (Some [Demo.png "first.png" Demo.img400x300])
              Demo.emptyPage in
   let p' := handleDrop (Some (Demo.pngs 30)) p in
   length (images p) = 1
   /\ length (objectURLs p') = length (objectURLs p) + 30
   /\ length (images p') = 30
   /\ map Img.name (images p')
      = "first.png" :: map File.name (Demo.pngs 29)
   /\ alerts p' = []).
Proof. vm_compute. repeat split. Qed.

Lemma In_firstn {A} (n : nat) (l : list A) (x : A) :
  In x (firstn n l) -> In x l.
Proof.
  intros H. rewrite <- (firstn_skipn n l). apply in_or_app. now left.
Qed.

Lemma filter_isImageFile_idem (l : list File.t) :
  filter isImageFile (filter isImageFile l) = filter isImageFile l.
Proof.
  induction l as [ | f l IH ]; simpl; [ reflexivity | ].
  destruct (isImageFile f) eqn:E; simpl; [ rewrite E, IH | ]; auto.
Qed.

(** C10.  Both handlers keep only the files whose type starts with
    ["image/"]: the other files have no effect at all (the result is the one
    for the image files alone, so they are dropped before the cap is checked
    and nothing is reported about them), and every item of the resulting
    batch either was there before or was made from an offered file whose
    type starts with ["image/"]. *)
Theorem C10_only_image_files_admitted (files : option (list File.t)) (p : Page) :
  let imageFiles := filter isImageFile (filesOf files) in
  handleDrop files p = handleDrop (Some imageFiles) p
  /\ handleFileInput files p = handleFileInput (Some imageFiles) p
  /\ (forall item, In item (images (handleDrop files p)) ->
      In item (images p)
      \/ (In (Img.file item) (filesOf files)
          /\ exists subtype,
               File.type (Img.file item) = ("image/" ++ subtype)%string))
  /\ (forall item, In item (images (handleFileInput files p)) ->
      In item (images p)
      \/ (In (Img.file item) (filesOf files)
          /\ exists subtype,
               File.type (Img.file item) = ("image/" ++ subtype)%string)).
Proof.
  intros imageFiles.
  assert (Same : handleDrop files p = handleDrop (Some imageFiles) p).
  { unfold handleDrop. cbn [filesOf]. subst imageFiles.
    now rewrite filter_isImageFile_idem. }
  assert (Origin : forall item, In item (images (handleDrop files p)) ->
            In item (images p)
            \/ (In (Img.file item) (filesOf files)
                /\ exists subtype,
                     File.type (Img.file item) = ("image/" ++ subtype)%string)).
  { intros item Hin.
    destruct (Nat.lt_ge_cases 30 (length imageFiles)) as [H | H].
    - left. now rewrite handleDrop_rejects in Hin.
    - rewrite handleDrop_admits in Hin by assumption. cbn [images] in Hin.
      apply In_firstn, in_app_or in Hin as [Hin | Hin]; [ now left | right ].
      apply (in_map Img.file) in Hin. rewrite newImages_files in Hin.
      apply filter_In in Hin as [Hfile Htype].
      split; [ assumption | apply prefix_app, Htype ]. }
  repeat split; assumption.
Qed.

Lemma C10_only_image_files_admitted_witness :
  let a := Demo.png "a.png" Demo.img400x300 in
  handleDrop (Some [Demo.notes; a]) Demo.emptyPage
  = handleDrop (Some [a]) Demo.emptyPage
  /\ (In (Demo.item 0 a) (images Demo.emptyPage)
      \/ (In a [Demo.notes; a]
          /\ exists subtype, File.type a = ("image/" ++ subtype)%string)).
Proof.
  intros a.
  destruct (C10_only_image_files_admitted (Some [Demo.notes; a]) Demo.emptyPage)
    as (Same & _ & Origin & _).
  split; [ exact Same | ].
  apply (Origin (Demo.item 0 a)). vm_compute. now left.
Defined.

(** ** Observations distribute over the effects of a run *)

Lemma progressValues_app (l1 l2 : list Effect) :
  progressValues (l1 ++ l2) = progressValues l1 ++ progressValues l2.
Proof. apply flat_map_app. Qed.

Lemma loads_app (l1 l2 : list Effect) :
  loads (l1 ++ l2) = loads l1 ++ loads l2.
Proof. apply flat_map_app. Qed.

Lemma downloads_app (l1 l2 : list Effect) :
  downloads (l1 ++ l2) = downloads l1 ++ downloads l2.
Proof. apply flat_map_app. Qed.

Lemma archives_app (l1 l2 : list Effect) :
  archives (l1 ++ l2) = archives l1 ++ archives l2.
Proof. apply flat_map_app. Qed.

Lemma archives_loopEffects (len i : nat) (items : list Img.t) :
  archives (loopEffects len i items) = [].
Proof.
  revert i. induction items as [ | item rest IH ]; intros i; simpl; auto.
Qed.

Lemma alertsOf_app (l1 l2 : list Effect) :
  alertsOf (l1 ++ l2) = alertsOf l1 ++ alertsOf l2.
Proof. apply flat_map_app. Qed.


Lemma loads_loopEffects (len i : nat) (items : list Img.t) :
  loads (loopEffects len i items) = map Img.preview items.
Proof.
  revert i. induction items as [ | item rest IH ]; intros i; simpl;
    [ | rewrite IH ]; reflexivity.
Qed.

Lemma progressValues_loopEffects (len i : nat) (items : list Img.t) :
  progressValues (loopEffects len i items)
  = map (fun k => progressAfter k len) (seq i (length items)).
Proof.
  revert i. induction items as [ | item rest IH ]; intros i; simpl;
    [ | rewrite IH ]; reflexivity.
Qed.

Lemma downloads_loopEffects (len i : nat) (items : list Img.t) :
  downloads (loopEffects len i items) = [].
Proof.
  revert i. induction items as [ | item rest IH ]; intros i; simpl; auto.
Qed.

Lemma alertsOf_loopEffects (len i : nat) (items : list Img.t) :
  alertsOf (loopEffects len i items) = [].
Proof.
  revert i. induction items as [ | item rest IH ]; intros i; simpl; auto.
Qed.


Lemma In_loopEffects (len i : nat) (items : list Img.t) (e : Effect) :
  In e (loopEffects len i items) ->
  (exists u, e = ImgSrc u) \/ (exists v, e = SetProgress v).
Proof.
  revert i. induction items as [ | item rest IH ]; intros i; simpl.
  - intros [].
  - intros [ <- | [ <- | H ] ]; eauto.
Qed.

(** ** Runs *)

Section Runs.

Variable B : Browser.
Variable store : URLStore.
Variable cfg : Settings.

Lemma resizeImage_eq (item : Img.t) :
  resizeImage B store cfg item
  = ([ImgSrc (Img.preview item)],
     match transcode B store cfg item with
     | Some p => Returned p
     | None => Pending
     end).
Proof.
  unfold resizeImage, transcode.
  destruct (loadImage B store (Img.preview item)); reflexivity.
Qed.

Lemma forLoop_done (len : nat) {rest : list Img.t} {ps : list Processed.t} :
  transcoded B store cfg rest ps ->
  forall i acc,
    forLoop B store cfg len i rest acc
    = (loopEffects len i rest, Returned (acc ++ ps)).
Proof.
  induction 1 as [ | item p rest ps Hp _ IH ]; intros i acc; simpl.
  - now rewrite app_nil_r.
  - rewrite resizeImage_eq, Hp. unfold bind; simpl.
    rewrite IH, <- app_assoc. reflexivity.
Qed.

Lemma forLoop_stuck (len : nat) {pre : list Img.t} {ps : list Processed.t}
    {bad : Img.t} (post : list Img.t) :
  transcoded B store cfg pre ps ->
  transcode B store cfg bad = None ->
  forall i acc,
    forLoop B store cfg len i (pre ++ bad :: post) acc
    = (loopEffects len i pre ++ [ImgSrc (Img.preview bad)], Pending).
Proof.
  intros Hpre Hbad.
  induction Hpre as [ | item p rest ps Hp _ IH ]; intros i acc; simpl.
  - rewrite resizeImage_eq, Hbad. reflexivity.
  - rewrite resizeImage_eq, Hp. unfold bind; simpl.
    rewrite IH. reflexivity.
Qed.

(** Either every item loads, or there is a first one that does not. *)
Lemma transcode_cases (items : list Img.t) :
  (exists ps, transcoded B store cfg items ps)
  \/ (exists pre bad post ps,
        items = pre ++ bad :: post
        /\ transcoded B store cfg pre ps
        /\ transcode B store cfg bad = None).
Proof.
  induction items as [ | item rest IH ].
  - left. exists []. constructor.
  - destruct (transcode B store cfg item) as [p | ] eqn:Hp.
    + destruct IH as [ [ps Hps] | (pre & bad & post & ps & -> & Hpre & Hbad) ].
      * left. exists (p :: ps). now constructor.
      * right. exists (item :: pre), bad, post, (p :: ps).
        repeat split; [ now constructor | assumption ].
    + right. exists [], item, rest, []. repeat split; [ constructor | assumption ].
Qed.

Lemma run_import_fails (imgs : list Img.t) :
  importJSZip B = false ->
  processAndDownload B store cfg imgs
  = ([SetIsProcessing true; SetProgress 0] ++ errorReport ImportError,
     Returned tt).
Proof.
  intros Himport. unfold processAndDownload. rewrite Himport. reflexivity.
Qed.

Lemma run_stuck {pre : list Img.t} {ps : list Processed.t} {bad : Img.t}
    (post : list Img.t) :
  importJSZip B = true ->
  transcoded B store cfg pre ps ->
  transcode B store cfg bad = None ->
  processAndDownload B store cfg (pre ++ bad :: post)
  = ([SetIsProcessing true; SetProgress 0]
     ++ loopEffects (length (pre ++ bad :: post)) 0 pre
     ++ [ImgSrc (Img.preview bad)],
     Pending).
Proof.
  intros Himport Hpre Hbad. unfold processAndDownload.
  rewrite Himport, (forLoop_stuck _ post Hpre Hbad). reflexivity.
Qed.

Lemma run_generate_fails {imgs : list Img.t} {ps : list Processed.t} :
  importJSZip B = true ->
  transcoded B store cfg imgs ps ->
  generateAsync B (addAll JSZip.empty ps) = None ->
  processAndDownload B store cfg imgs
  = ([SetIsProcessing true; SetProgress 0]
     ++ loopEffects (length imgs) 0 imgs
     ++ GenerateAsync (addAll JSZip.empty ps) :: errorReport GenerateError,
     Returned tt).
Proof.
  intros Himport Hps Hgen. unfold processAndDownload.
  rewrite Himport, (forLoop_done _ Hps).
  cbn [bind ret throw emit fst snd app]. rewrite Hgen.
  unfold tryCatchFinally. cbn [bind ret throw emit fst snd app].
  rewrite ?app_nil_r, <- ?app_assoc. reflexivity.
Qed.

Lemma run_done {imgs : list Img.t} {ps : list Processed.t} {content : Blob} :
  importJSZip B = true ->
  transcoded B store cfg imgs ps ->
  generateAsync B (addAll JSZip.empty ps) = Some content ->
  processAndDownload B store cfg imgs
  = ([SetIsProcessing true; SetProgress 0]
     ++ loopEffects (length imgs) 0 imgs
     ++ [GenerateAsync (addAll JSZip.empty ps);
         Download "resized-images.zip" content;
         SetIsProcessing false; SetProgress 0],
     Returned tt).
Proof.
  intros Himport Hps Hgen. unfold processAndDownload.
  rewrite Himport, (forLoop_done _ Hps).
  cbn [bind ret throw emit fst snd app]. rewrite Hgen.
  unfold tryCatchFinally. cbn [bind ret throw emit fst snd app].
  rewrite ?app_nil_r, <- ?app_assoc. reflexivity.
Qed.

(** A run that completed normally loaded every item, serialized the
    archive and offered it for download. *)
Lemma completed_inv (imgs : list Img.t) :
  completedNormally (processAndDownload B store cfg imgs) ->
  exists ps content,
    transcoded B store cfg imgs ps
    /\ generateAsync B (addAll JSZip.empty ps) = Some content
    /\ processAndDownload B store cfg imgs
       = ([SetIsProcessing true; SetProgress 0]
          ++ loopEffects (length imgs) 0 imgs
          ++ [GenerateAsync (addAll JSZip.empty ps);
              Download "resized-images.zip" content;
              SetIsProcessing false; SetProgress 0],
          Returned tt).
Proof.
  intros [Hout Halert].
  destruct (importJSZip B) eqn:Himport.
  - destruct (transcode_cases imgs)
      as [ [ps Hps] | (pre & bad & post & ps & -> & Hpre & Hbad) ].
    + destruct (generateAsync B (addAll JSZip.empty ps)) as [content | ] eqn:Hgen.
      * exists ps, content. repeat split; try assumption.
        exact (run_done Himport Hps Hgen).
      * rewrite (run_generate_fails Himport Hps Hgen) in Halert.
        unfold effects in Halert; cbn [fst] in Halert.
        rewrite !alertsOf_app, alertsOf_loopEffects in Halert. discriminate.
    + rewrite (run_stuck post Himport Hpre Hbad) in Hout. discriminate.
  - rewrite (run_import_fails imgs Himport) in Halert. discriminate.
Qed.

Lemma transcode_None (item : Img.t) :
  transcode B store cfg item = None
  <-> loadImage B store (Img.preview item) = None.
Proof.
  unfold transcode.
  destruct (loadImage B store (Img.preview item)); split; congruence.
Qed.

Lemma transcoded_of_loaded (items : list Img.t) :
  (forall item, In item items ->
     loadImage B store (Img.preview item) <> None) ->
  exists ps, transcoded B store cfg items ps.
Proof.
  induction items as [ | item rest IH ]; intros Hall.
  - exists []. constructor.
  - destruct IH as [ps Hps]; [ intros it Hit; apply Hall; now right | ].
    destruct (transcode B store cfg item) as [p | ] eqn:Hp.
    + exists (p :: ps). now constructor.
    + apply transcode_None in Hp. now apply Hall in Hp; [ | left ].
Qed.

End Runs.

Arguments completed_inv {B store cfg imgs} _.
Arguments run_stuck {B store cfg pre ps bad} post _ _ _.
Arguments run_done {B store cfg imgs ps content} _ _ _.
Arguments transcoded_of_loaded {B store} cfg {items} _.

(** ** Progress *)

(** The percentages reported for a batch of 1 to 30 items, checked by
    evaluating them for every such size. *)
Lemma loopProgress_facts (n : nat) :
  1 <= n <= 30 ->
  Forall percentage (loopProgress n)
  /\ nondecreasing (loopProgress n)
  /\ last (loopProgress n) 0%float = 100%float.
Proof.
  intros [Hlo Hhi].
  do 31 (destruct n as [ | n ];
         [ first [ lia | vm_compute; repeat constructor ] | ]).
  lia.
Qed.

(** C4, as the code has it.  For a non-empty batch (of at most 30 items, as
    admission leaves it) that completes normally, [setProgress] receives 0,
    then after item [i] of [n] the percentage [((i + 1) / n) * 100], then 0
    again once the download has been offered.  The percentages reported by
    the loop lie between 0 and 100, never decrease, and the last of them is
    exactly 100. *)
Theorem C4_progress_percentages (B : Browser) (store : URLStore)
    (cfg : Settings) (imgs : list Img.t) :
  imgs <> [] -> length imgs <= 30 ->
  completedNormally (processAndDownload B store cfg imgs) ->
  let n := length imgs in
  progressValues (effects (processAndDownload B store cfg imgs))
  = [0%float] ++ map (fun i => progressAfter i n) (seq 0 n) ++ [0%float]
  /\ Forall percentage (map (fun i => progressAfter i n) (seq 0 n))
  /\ nondecreasing (map (fun i => progressAfter i n) (seq 0 n))
  /\ last (map (fun i => progressAfter i n) (seq 0 n)) 0%float = 100%float.
Proof.
  intros Hne Hcap Hdone n.
  destruct (completed_inv Hdone) as (ps & content & _ & _ & ->).
  split.
  - unfold effects; cbn [fst].
    rewrite !progressValues_app, progressValues_loopEffects. reflexivity.
  - apply loopProgress_facts. subst n.
    destruct imgs; [ contradiction | simpl in *; lia ].
Qed.

Lemma C4_progress_percentages_witness :
  progressValues (effects (Demo.run Demo.pageAB))
  = [0%float; 50%float; 100%float; 0%float].
Proof.
  destruct (C4_progress_percentages Demo.browser (objectURLs Demo.pageAB)
              Demo.defaults (images Demo.pageAB)) as (E & _).
  - vm_compute. discriminate.
  - vm_compute. lia.
  - split; vm_compute; reflexivity.
  - unfold Demo.run. rewrite E. vm_compute. reflexivity.
Defined.

(** C4 does not hold as stated.  A batch of two images completes normally
    and [setProgress] receives 0, 50, 100 and 0: the values reported for the
    items are percentages above 1, the last of them is 100 and not 1.0, and
    the value reported last of all is the reset to 0, below the one before
    it. *)
Lemma C4_counterexample :
  let r := Demo.run Demo.pageAB in
  (outcome r = Returned tt /\ alertsOf (effects r) = [])
  /\ progressValues (effects r) = [0%float; 50%float; 100%float; 0%float]
  /\ map (fun v => PrimFloat.leb v 1) (progressValues (effects r))
     = [true; false; false; true]
  /\ ~ nondecreasing (progressValues (effects r))
  /\ PrimFloat.eqb (last (loopProgress 2) 0%float) 1 = false
  /\ PrimFloat.eqb (last (progressValues (effects r)) 0%float) 1 = false.
Proof.
  vm_compute. repeat split.
  intros (_ & _ & H & _). discriminate H.
Qed.

(** ** An item that does not decode *)

(** C5, as the code has it.  When an item of the batch fails to load, the
    run does not complete normally: the items before it and the failing item
    are loaded, in order, no later item is, and no archive is built or
    offered for download. *)
Theorem C5_undecodable_item_stops_run (B : Browser) (store : URLStore)
    (cfg : Settings) (pre : list Img.t) (bad : Img.t) (post : list Img.t) :
  importJSZip B = true ->
  (forall item, In item pre -> loadImage B store (Img.preview item) <> None) ->
  loadImage B store (Img.preview bad) = None ->
  let r := processAndDownload B store cfg (pre ++ bad :: post) in
  ~ completedNormally r
  /\ loads (effects r) = map Img.preview pre ++ [Img.preview bad]
  /\ archives (effects r) = []
  /\ downloads (effects r) = [].
Proof.
  intros Himport Hpre Hbad r.
  destruct (transcoded_of_loaded cfg Hpre) as [ps Hps].
  apply (transcode_None B store cfg) in Hbad.
  subst r. unfold completedNormally.
  rewrite (run_stuck post Himport Hps Hbad).
  unfold outcome, effects; cbn [fst snd].
  rewrite !loads_app, !archives_app, !downloads_app,
    loads_loopEffects, archives_loopEffects, downloads_loopEffects.
  split; [ intros [Hout _]; discriminate | ].
  repeat split.
Qed.

Lemma C5_undecodable_item_stops_run_witness :
  loads (effects (Demo.run Demo.pageBad)) = [0; 1]
  /\ downloads (effects (Demo.run Demo.pageBad)) = [].
Proof.
  destruct (C5_undecodable_item_stops_run Demo.browser
              (objectURLs Demo.pageBad) Demo.defaults
              [Demo.item 0 (Demo.png "a.png" Demo.img400x300)]
              (Demo.item 1 (Demo.png "bad.png" Demo.corrupt))
              [Demo.item 2 (Demo.png "c.png" Demo.img100x800)])
    as (_ & Hloads & _ & Hdl).
  - reflexivity.
  - intros it [ <- | [] ]. vm_compute. discriminate.
  - vm_compute. reflexivity.
  - exact (conj Hloads Hdl).
Defined.

(** C5 does not hold as stated.  With a corrupt item between two valid ones
    the run never returns: the corrupt item is loaded, the item after it is
    not, and no archive is offered, where the claim has the run complete
    with an archive of two entries. *)
Lemma C5_counterexample :
  let r := Demo.run Demo.pageBad in
  map Img.name (images Demo.pageBad) = ["a.png"; "bad.png"; "c.png"]
  /\ map (fun i => Demo.toyDecode (File.bytes (Img.file i))) (images Demo.pageBad)
     = [Some (400, 300)%Z; None; Some (100, 800)%Z]
  /\ outcome r = Pending
  /\ loads (effects r) = [0; 1]
  /\ downloads (effects r) = []
  /\ effects r
     = [SetIsProcessing true; SetProgress 0; ImgSrc 0;
        SetProgress (progressAfter 0 3); ImgSrc 1].
Proof. vm_compute. repeat split. Qed.

(** ** The archive *)

(** An entry added under a name that is already present replaces the
    content of that entry and keeps its place. *)
Example JSZip_file_replaces :
  JSZip.file [("resized-a.png", [Byte.x01]); ("resized-b.png", [Byte.x02])]
    "resized-a.png" [Byte.x03]
  = [("resized-a.png", [Byte.x03]); ("resized-b.png", [Byte.x02])].
Proof. reflexivity. Qed.

Lemma file_fresh (zip : JSZip.t) (name : string) (data : Blob) :
  ~ In name (JSZip.names zip) ->
  JSZip.file zip name data = zip ++ [(name, data)].
Proof.
  induction zip as [ | [k v] rest IH ]; simpl; intros Hfresh.
  - reflexivity.
  - destruct (String.eqb_spec k name) as [ -> | _ ].
    + exfalso. apply Hfresh. now left.
    + rewrite IH; [ reflexivity | ]. intros Hin. apply Hfresh. now right.
Qed.

(** Adding entries with fresh, pairwise distinct names appends them in
    order. *)
Lemma addAll_fresh (ps : list Processed.t) :
  forall zip,
    NoDup (JSZip.names zip ++ map (fun p => fst (entryOf p)) ps) ->
    addAll zip ps = zip ++ map entryOf ps.
Proof.
  induction ps as [ | p ps IH ]; intros zip Hnd; simpl.
  - now rewrite app_nil_r.
  - simpl in Hnd. pose proof (NoDup_remove_2 _ _ _ Hnd) as Hfresh.
    unfold addAll in *. simpl.
    rewrite file_fresh.
    + rewrite IH.
      * now rewrite <- app_assoc.
      * unfold JSZip.names in *. rewrite map_app, <- app_assoc. exact Hnd.
    + intros Hin. apply Hfresh, in_or_app. now left.
Qed.

Lemma resized_name_inj (a b : string) :
  ("resized-" ++ a = "resized-" ++ b)%string -> a = b.
Proof. simpl. intros H. now injection H. Qed.

Lemma NoDup_entry_names (ps : list Processed.t) :
  NoDup (map Processed.name ps) ->
  NoDup (map (fun p => fst (entryOf p)) ps).
Proof.
  induction ps as [ | p ps IH ]; simpl; intros Hnd.
  - constructor.
  - inversion Hnd as [ | ? ? Hnotin Hrest ]; subst. constructor.
    + intros Hin. apply Hnotin.
      apply in_map_iff in Hin as (q & Hq & Hin).
      apply resized_name_inj in Hq. rewrite <- Hq.
      now apply in_map.
    + now apply IH.
Qed.

Lemma transcoded_names (B : Browser) (store : URLStore) (cfg : Settings)
    (items : list Img.t) (ps : list Processed.t) :
  transcoded B store cfg items ps ->
  map Processed.name ps = map Img.name items.
Proof.
  induction 1 as [ | item p items ps Hp _ IH ]; simpl; [ reflexivity | ].
  rewrite IH. unfold transcode in Hp.
  destruct (loadImage B store (Img.preview item)); [ | discriminate ].
  injection Hp as <-. reflexivity.
Qed.

(** With pairwise distinct names, the archive of a batch holds the entries
    of its items, in order. *)
Lemma archive_of_distinct {B : Browser} {store : URLStore} {cfg : Settings}
    {items : list Img.t} {ps : list Processed.t} :
  NoDup (map Img.name items) ->
  transcoded B store cfg items ps ->
  addAll JSZip.empty ps = map entryOf ps.
Proof.
  intros Hnd Hps. rewrite addAll_fresh; [ reflexivity | ].
  simpl. apply NoDup_entry_names.
  now rewrite (transcoded_names _ _ _ _ _ Hps).
Qed.

Lemma firstn_exact {A} (l1 l2 : list A) :
  firstn (length l1) (l1 ++ l2) = l1.
Proof.
  rewrite firstn_app, firstn_all, Nat.sub_diag, firstn_0. apply app_nil_r.
Qed.

(** In every run, the images loaded are a prefix of the batch, in order. *)
Lemma loads_prefix (B : Browser) (store : URLStore) (cfg : Settings)
    (imgs : list Img.t) :
  exists k,
    loads (effects (processAndDownload B store cfg imgs))
    = firstn k (map Img.preview imgs).
Proof.
  destruct (importJSZip B) eqn:Himport.
  - destruct (transcode_cases B store cfg imgs)
      as [ [ps Hps] | (pre & bad & post & ps & -> & Hpre & Hbad) ].
    + exists (length (map Img.preview imgs)). rewrite firstn_all.
      destruct (generateAsync B (addAll JSZip.empty ps)) as [content | ] eqn:Hgen.
      * rewrite (run_done Himport Hps Hgen). unfold effects; cbn [fst].
        rewrite !loads_app, loads_loopEffects. simpl. apply app_nil_r.
      * rewrite (run_generate_fails _ _ _ Himport Hps Hgen).
        unfold effects; cbn [fst].
        rewrite !loads_app, loads_loopEffects. simpl. apply app_nil_r.
    + exists (length (map Img.preview pre ++ [Img.preview bad])).
      rewrite (run_stuck post Himport Hpre Hbad). unfold effects; cbn [fst].
      rewrite !loads_app, loads_loopEffects. simpl.
      replace (map Img.preview (pre ++ bad :: post))
        with ((map Img.preview pre ++ [Img.preview bad]) ++ map Img.preview post)
        by (now rewrite map_app, <- app_assoc).
      now rewrite firstn_exact.
  - exists 0. rewrite (run_import_fails _ _ _ imgs Himport). reflexivity.
Qed.

Lemma transcoded_entries (B : Browser) (store : URLStore) (cfg : Settings)
    (items : list Img.t) (ps : list Processed.t) :
  transcoded B store cfg items ps ->
  Forall2
    (fun item entry =>
       exists img,
         loadImage B store (Img.preview item) = Some img
         /\ entry
            = (("resized-" ++ Img.name item)%string,
               toBlob B (resizeCanvas cfg img) "image/jpeg" jpegQuality))
    items (map entryOf ps).
Proof.
  induction 1 as [ | item p items ps Hp _ IH ]; simpl; constructor;
    [ | exact IH ].
  unfold transcode in Hp.
  destruct (loadImage B store (Img.preview item)) as [img | ];
    [ | discriminate ].
  injection Hp as <-. exists img. split; reflexivity.
Qed.

(** * Further properties of the component *)

(** ** Admission and removal *)

Lemma firstn_app_firstn {A} (n : nat) (l m : list A) :
  firstn n (firstn n l ++ m) = firstn n (l ++ m).
Proof.
  destruct (Nat.le_gt_cases (length l) n) as [H | H].
  - now rewrite (firstn_all2 l) by assumption.
  - rewrite !firstn_app, firstn_firstn, Nat.min_id, length_firstn.
    replace (n - Nat.min n (length l)) with 0 by lia.
    replace (n - length l) with 0 by lia.
    reflexivity.
Qed.

Lemma firstn_keep {A} (n : nat) (l m : list A) :
  length l <= n -> firstn n (l ++ m) = l ++ firstn (n - length l) m.
Proof.
  intros H. rewrite firstn_app, firstn_all2 by assumption. reflexivity.
Qed.

(** X1.  Admission appends.  On a batch of at most 30 items, a drop or a
    selection with at most 30 image files keeps the items already there, in
    their order, and adds after them the items made from the first image
    files offered, as many as there is room for up to 30. *)
Theorem admission_appends (files : option (list File.t)) (p : Page) :
  length (images p) <= 30 ->
  length (filter isImageFile (filesOf files)) <= 30 ->
  let created :=
    fst (newImages (filter isImageFile (filesOf files)) (objectURLs p)) in
  let room := 30 - length (images p) in
  images (handleDrop files p) = images p ++ firstn room created
  /\ images (handleFileInput files p) = images p ++ firstn room created
  /\ map Img.file (firstn room created)
     = firstn room (filter isImageFile (filesOf files)).
Proof.
  intros Hp Hfiles created room.
  change (handleFileInput files p) with (handleDrop files p).
  rewrite handleDrop_admits by assumption.
  cbn [images]. fold created.
  rewrite firstn_keep by assumption. fold room.
  repeat split. subst created.
  now rewrite <- firstn_map, newImages_files.
Qed.

Lemma admission_appends_witness :
  map Img.name
    (images (handleDrop (Some [Demo.notes; Demo.png "c.png" Demo.img100x800])
               Demo.pageAB))
  = ["a.png"; "b.png"; "c.png"].
Proof.
  destruct (admission_appends
              (Some [Demo.notes; Demo.png "c.png" Demo.img100x800]) Demo.pageAB)
    as (E & _).
  - vm_compute. lia.
  - vm_compute. lia.
  - rewrite E. reflexivity.
Defined.

(** *** Removal *)

Lemma filterOut_In {A} (index start : nat) (l : list A) (x : A) :
  In x (filterOut index start l) -> In x l.
Proof.
  revert start. induction l as [ | y l IH ]; simpl; intros start H.
  - exact H.
  - destruct (negb (start =? index)%nat).
    + destruct H as [ H | H ]; [ now left | right; eauto ].
    + right. eauto.
Qed.

Lemma filterOut_Forall {A} (P : A -> Prop) (index start : nat) (l : list A) :
  Forall P l -> Forall P (filterOut index start l).
Proof.
  intros H. apply Forall_forall. intros x Hx.
  rewrite Forall_forall in H. eapply H, filterOut_In, Hx.
Qed.

Lemma filterOut_map {A B} (f : A -> B) (index start : nat) (l : list A) :
  map f (filterOut index start l) = filterOut index start (map f l).
Proof.
  revert start. induction l as [ | y l IH ]; simpl; intros start.
  - reflexivity.
  - destruct (negb (start =? index)%nat); simpl; now rewrite IH.
Qed.

Lemma filterOut_NoDup {A} (index start : nat) (l : list A) :
  NoDup l -> NoDup (filterOut index start l).
Proof.
  intros H. revert start.
  induction H as [ | y l Hy _ IH ]; simpl; intros start.
  - constructor.
  - destruct (negb (start =? index)%nat); [ | apply IH ].
    constructor; [ | apply IH ].
    intros Hin. apply Hy. eapply filterOut_In, Hin.
Qed.

(** The items before [index] and those after it, when [index] is at or
    after [start]; everything when it is before. *)
Lemma filterOut_split {A} (index : nat) (l : list A) :
  forall start,
    filterOut index start l
    = if (index <? start)%nat then l
      else firstn (index - start) l ++ skipn (S (index - start)) l.
Proof.
  induction l as [ | y l IH ]; intros start; simpl.
  - destruct (index <? start)%nat; [ | rewrite firstn_nil ]; reflexivity.
  - rewrite IH.
    destruct (Nat.ltb_spec index start) as [Hlt | Hge].
    + destruct (Nat.eqb_spec start index) as [ -> | _ ]; [ lia | ]. simpl.
      destruct (Nat.ltb_spec index (S start)); [ reflexivity | lia ].
    + destruct (Nat.eqb_spec start index) as [ -> | Hne ]; simpl.
      * rewrite Nat.sub_diag. simpl.
        destruct (Nat.ltb_spec index (S index)); [ reflexivity | lia ].
      * destruct (Nat.ltb_spec index (S start)); [ lia | ].
        replace (index - start) with (S (index - S start)) by lia.
        reflexivity.
Qed.

Lemma removeImage_images (index : nat) (p : Page) :
  images (removeImage index p)
  = firstn index (images p) ++ skipn (S index) (images p).
Proof.
  unfold removeImage; cbn [images]. rewrite filterOut_split.
  simpl. now rewrite Nat.sub_0_r.
Qed.

(** X2.  [removeImage] with the index of an item removes that item and
    nothing else: the items before and after it stay, in order, and the
    batch is one item shorter.  With an index beyond the batch it changes
    nothing.  It never touches the object URLs or the alerts. *)
Theorem removeImage_bounds (index : nat) (p : Page) :
  (index < length (images p) ->
     images (removeImage index p)
     = firstn index (images p) ++ skipn (S index) (images p)
     /\ S (length (images (removeImage index p))) = length (images p))
  /\ (length (images p) <= index -> removeImage index p = p)
  /\ objectURLs (removeImage index p) = objectURLs p
  /\ alerts (removeImage index p) = alerts p.
Proof.
  pose proof (removeImage_images index p) as E.
  split; [ | split; [ | split; reflexivity ] ].
  - intros Hlt. split; [ exact E | ].
    rewrite E, length_app, length_firstn, length_skipn. lia.
  - intros Hge. destruct p as [imgs store al].
    unfold removeImage in *; cbn [images objectURLs alerts] in *.
    f_equal. rewrite E, firstn_all2 by assumption.
    rewrite skipn_all2 by lia. apply app_nil_r.
Qed.

Lemma removeImage_bounds_witness :
  map Img.name (images (removeImage 1 Demo.pageBad)) = ["a.png"; "c.png"]
  /\ removeImage 3 Demo.pageBad = Demo.pageBad.
Proof.
  destruct (removeImage_bounds 1 Demo.pageBad) as (Hin & _).
  destruct (removeImage_bounds 3 Demo.pageBad) as (_ & Hout & _).
  split.
  - destruct Hin as [E _]; [ vm_compute; lia | ]. rewrite E. reflexivity.
  - apply Hout. vm_compute. lia.
Defined.

(** *** What every reachable batch satisfies *)

Lemma resolveURL_extend (store extra : URLStore) (u : URL) (f : File.t) :
  resolveURL store u = Some f -> resolveURL (store ++ extra) u = Some f.
Proof.
  unfold resolveURL. intros H.
  rewrite nth_error_app1; [ exact H | ].
  apply nth_error_Some. congruence.
Qed.

Lemma itemOK_extend (store extra : URLStore) (item : Img.t) :
  itemOK store item -> itemOK (store ++ extra) item.
Proof.
  intros (Hurl & Hrest). split; [ now apply resolveURL_extend | exact Hrest ].
Qed.

Lemma newImages_itemOK (fs : list File.t) :
  Forall (fun f => isImageFile f = true) fs ->
  forall store, Forall (itemOK (store ++ fs)) (fst (newImages fs store)).
Proof.
  induction 1 as [ | f fs Hf _ IH ]; intros store; simpl.
  - constructor.
  - specialize (IH (store ++ [f])). rewrite <- app_assoc in IH. simpl in IH.
    destruct (newImages fs (store ++ [f])) as [items store2]. simpl in *.
    constructor; [ | exact IH ].
    repeat split; simpl; try assumption.
    unfold resolveURL. rewrite nth_error_app2, Nat.sub_diag by lia.
    reflexivity.
Qed.

Lemma NoDup_firstn {A} (n : nat) (l : list A) :
  NoDup l -> NoDup (firstn n l).
Proof.
  intros H. rewrite <- (firstn_skipn n l) in H.
  now apply NoDup_app_remove_r in H.
Qed.

Lemma Forall_firstn_of {A} (P : A -> Prop) (n : nat) (l : list A) :
  Forall P l -> Forall P (firstn n l).
Proof.
  intros H. apply Forall_forall. intros x Hx.
  rewrite Forall_forall in H. eapply H, In_firstn, Hx.
Qed.

Lemma wellFormed_handleDrop (files : option (list File.t)) (p : Page) :
  wellFormed p -> wellFormed (handleDrop files p).
Proof.
  intros (Hlen & Hnd & Hok).
  destruct (Nat.lt_ge_cases 30 (length (filter isImageFile (filesOf files))))
    as [H | H].
  - rewrite handleDrop_rejects by assumption. repeat split; assumption.
  - rewrite handleDrop_admits by assumption.
    unfold wellFormed; cbn [images objectURLs].
    set (fs := filter isImageFile (filesOf files)) in *.
    split; [ rewrite length_firstn; lia | split ].
    + rewrite <- firstn_map. apply NoDup_firstn.
      rewrite map_app, newImages_previews.
      apply NoDup_app; [ assumption | apply seq_NoDup | ].
      intros u Hold Hnew. apply in_seq in Hnew.
      apply in_map_iff in Hold as (item & <- & Hitem).
      rewrite Forall_forall in Hok. destruct (Hok item Hitem) as (Hurl & _).
      assert (Img.preview item < length (objectURLs p)); [ | lia ].
      apply nth_error_Some. unfold resolveURL in Hurl. congruence.
    + apply Forall_firstn_of, Forall_app. split.
      * eapply Forall_impl; [ | exact Hok ].
        intros item. apply itemOK_extend.
      * apply newImages_itemOK, Forall_forall.
        intros f Hf. now apply filter_In in Hf.
Qed.

Lemma wellFormed_removeImage (index : nat) (p : Page) :
  wellFormed p -> wellFormed (removeImage index p).
Proof.
  intros (Hlen & Hnd & Hok).
  unfold wellFormed. split; [ | split ].
  - rewrite removeImage_images, length_app, length_firstn, length_skipn. lia.
  - unfold removeImage; cbn [images].
    rewrite filterOut_map. now apply filterOut_NoDup.
  - unfold removeImage; cbn [images objectURLs].
    now apply filterOut_Forall.
Qed.

Lemma wellFormed_dispatch (p : Page) (a : Action) :
  wellFormed p -> wellFormed (dispatch p a).
Proof.
  destruct a as [ files | files | index ]; simpl.
  - apply wellFormed_handleDrop.
  - apply wellFormed_handleDrop.
  - apply wellFormed_removeImage.
Qed.

Lemma wellFormed_afterActions (actions : list Action) :
  forall p, wellFormed p -> wellFormed (afterActions actions p).
Proof.
  induction actions as [ | a actions IH ]; intros p Hp; simpl.
  - exact Hp.
  - apply IH, wellFormed_dispatch, Hp.
Qed.

(** X3.  Whatever the user drops, selects and removes, starting from an
    empty batch: the batch holds at most 30 items, no two items share an
    object URL, and every item has a preview URL that resolves to its own
    file, carries that file's name and size, and comes from a file whose
    type starts with ["image/"]. *)
Theorem reachable_batches (actions : list Action) (store : URLStore)
    (shown : list string) :
  let p := afterActions actions
             {| images := []; objectURLs := store; alerts := shown |} in
  length (images p) <= 30
  /\ NoDup (map Img.preview (images p))
  /\ forall item, In item (images p) ->
       resolveURL (objectURLs p) (Img.preview item) = Some (Img.file item)
       /\ Img.name item = File.name (Img.file item)
       /\ Img.originalSize item = File.size (Img.file item)
       /\ exists subtype,
            File.type (Img.file item) = ("image/" ++ subtype)%string.
Proof.
  intros p.
  assert (W : wellFormed p).
  { apply wellFormed_afterActions. repeat split; simpl; try constructor. lia. }
  destruct W as (Hlen & Hnd & Hok).
  split; [ exact Hlen | split; [ exact Hnd | ] ].
  intros item Hin. rewrite Forall_forall in Hok.
  destruct (Hok item Hin) as (Hurl & Hname & Hsize & Htype).
  repeat split; try assumption. now apply prefix_app.
Qed.

(** *** How admissions compose *)

Lemma newImages_app (a b : list File.t) :
  forall store,
    fst (newImages (a ++ b) store)
    = fst (newImages a store) ++ fst (newImages b (store ++ a)).
Proof.
  induction a as [ | f a IH ]; intros store; simpl.
  - now rewrite app_nil_r.
  - specialize (IH (store ++ [f])). rewrite <- app_assoc in IH. simpl in IH.
    destruct (newImages (a ++ b) (store ++ [f])) as [items store2].
    destruct (newImages a (store ++ [f])) as [items1 store1].
    simpl in *. now rewrite IH.
Qed.

(** X4.  Two admissions in a row give the same batch, the same object URLs
    and the same alerts as one admission of all the files together, as long
    as the files together hold at most 30 image files. *)
Theorem admission_composes (files1 files2 : list File.t) (p : Page) :
  length (filter isImageFile (files1 ++ files2)) <= 30 ->
  handleDrop (Some files2) (handleDrop (Some files1) p)
  = handleDrop (Some (files1 ++ files2)) p
  /\ handleFileInput (Some files2) (handleDrop (Some files1) p)
     = handleDrop (Some (files1 ++ files2)) p.
Proof.
  intros Hall.
  change (handleFileInput (Some files2)) with (handleDrop (Some files2)).
  enough (E : handleDrop (Some files2) (handleDrop (Some files1) p)
              = handleDrop (Some (files1 ++ files2)) p) by now split.
  cbn [filesOf] in Hall. rewrite filter_app, length_app in Hall.
  rewrite (handleDrop_admits (Some files1)) by (cbn [filesOf]; lia).
  rewrite (handleDrop_admits (Some files2)) by (cbn [filesOf]; lia).
  rewrite (handleDrop_admits (Some (files1 ++ files2)))
    by (cbn [filesOf]; rewrite filter_app, length_app; lia).
  cbn [filesOf images objectURLs alerts].
  rewrite filter_app, newImages_app, firstn_app_firstn.
  now rewrite <- !app_assoc.
Qed.

Lemma admission_composes_witness :
  handleDrop (Some [Demo.png "b.png" Demo.img400x300])
    (handleDrop (Some [Demo.png "a.png" Demo.img400x300]) Demo.emptyPage)
  = Demo.pageAB.
Proof.
  destruct (admission_composes [Demo.png "a.png" Demo.img400x300]
              [Demo.png "b.png" Demo.img400x300] Demo.emptyPage) as (E & _).
  - vm_compute. lia.
  - rewrite E. reflexivity.
Defined.

(** X5.  A drop or a selection that holds no image file (no file list at
    all, an empty one, or only files of other types) leaves a batch of at
    most 30 items, its object URLs and the alerts exactly as they were. *)
Theorem admission_without_images (files : option (list File.t)) (p : Page) :
  length (images p) <= 30 ->
  (forall f, In f (filesOf files) -> isImageFile f = false) ->
  handleDrop files p = p /\ handleFileInput files p = p.
Proof.
  intros Hlen Hnone.
  change (handleFileInput files p) with (handleDrop files p).
  enough (E : handleDrop files p = p) by now split.
  assert (Hfilter : filter isImageFile (filesOf files) = []).
  { destruct (filter isImageFile (filesOf files)) as [ | f fs ] eqn:E;
      [ reflexivity | ].
    assert (Hin : In f (filter isImageFile (filesOf files)))
      by (rewrite E; now left).
    apply filter_In in Hin as [Hin Htrue].
    rewrite (Hnone f Hin) in Htrue. discriminate. }
  rewrite handleDrop_admits by (rewrite Hfilter; simpl; lia).
  rewrite Hfilter. simpl newImages. cbn [fst].
  rewrite !app_nil_r, firstn_all2 by assumption.
  now destruct p.
Qed.

Lemma admission_without_images_witness :
  handleDrop None Demo.pageAB = Demo.pageAB
  /\ handleDrop (Some [Demo.notes]) Demo.pageAB = Demo.pageAB.
Proof.
  split.
  - apply (admission_without_images None Demo.pageAB).
    + vm_compute. lia.
    + intros f [].
  - apply (admission_without_images (Some [Demo.notes]) Demo.pageAB).
    + vm_compute. lia.
    + intros f [ <- | [] ]. reflexivity.
Defined.

(** X6.  Dropping one image file on a batch with room left and then
    removing the item it made gives back the batch as it was, but not the
    object URLs: the URL made for the file stays registered. *)
Theorem drop_then_remove (f : File.t) (p : Page) :
  isImageFile f = true ->
  length (images p) < 30 ->
  let p' := removeImage (length (images p)) (handleDrop (Some [f]) p) in
  images p' = images p
  /\ objectURLs p' = objectURLs p ++ [f]
  /\ resolveURL (objectURLs p') (length (objectURLs p)) = Some f
  /\ alerts p' = alerts p.
Proof.
  intros Hf Hroom p'. subst p'.
  assert (Hadmit : handleDrop (Some [f]) p
                   = {| images := images p ++ [Demo.item (length (objectURLs p)) f];
                        objectURLs := objectURLs p ++ [f];
                        alerts := alerts p |}).
  { rewrite handleDrop_admits by (simpl; rewrite Hf; simpl; lia).
    cbn [filesOf filter]. rewrite Hf. simpl newImages. cbn [fst].
    rewrite firstn_all2 by (rewrite length_app; simpl; lia).
    reflexivity. }
  rewrite Hadmit, removeImage_images. unfold removeImage.
  cbn [images objectURLs alerts].
  repeat split.
  - rewrite firstn_app, firstn_all, Nat.sub_diag, firstn_0, app_nil_r.
    rewrite skipn_all2 by (rewrite length_app; simpl; lia).
    apply app_nil_r.
  - unfold resolveURL. rewrite nth_error_app2, Nat.sub_diag by lia.
    reflexivity.
Qed.

Lemma drop_then_remove_witness :
  images (removeImage 2
            (handleDrop (Some [Demo.png "c.png" Demo.img100x800]) Demo.pageAB))
  = images Demo.pageAB.
Proof.
  destruct (drop_then_remove (Demo.png "c.png" Demo.img100x800) Demo.pageAB)
    as (E & _).
  - reflexivity.
  - vm_compute. lia.
  - exact E.
Defined.

(** ** How a run ends *)

Section Endings.

Variable B : Browser.
Variable store : URLStore.
Variable cfg : Settings.

(** The four ways a run can go. *)
Lemma run_cases (imgs : list Img.t) :
  let r := processAndDownload B store cfg imgs in
  let start := [SetIsProcessing true; SetProgress 0%float] in
  (importJSZip B = false
   /\ r = (start ++ errorReport ImportError, Returned tt))
  \/ (importJSZip B = true
      /\ exists pre bad post ps,
           imgs = pre ++ bad :: post
           /\ transcoded B store cfg pre ps
           /\ transcode B store cfg bad = None
           /\ r = (start ++ loopEffects (length imgs) 0 pre
                   ++ [ImgSrc (Img.preview bad)], Pending))
  \/ (importJSZip B = true
      /\ exists ps,
           transcoded B store cfg imgs ps
           /\ generateAsync B (addAll JSZip.empty ps) = None
           /\ r = (start ++ loopEffects (length imgs) 0 imgs
                   ++ GenerateAsync (addAll JSZip.empty ps)
                      :: errorReport GenerateError, Returned tt))
  \/ (importJSZip B = true
      /\ exists ps content,
           transcoded B store cfg imgs ps
           /\ generateAsync B (addAll JSZip.empty ps) = Some content
           /\ r = (start ++ loopEffects (length imgs) 0 imgs
                   ++ [GenerateAsync (addAll JSZip.empty ps);
                       Download "resized-images.zip" content;
                       SetIsProcessing false; SetProgress 0%float],
                   Returned tt)).
Proof.
  intros r start. subst r start.
  destruct (importJSZip B) eqn:Himport.
  - right.
    destruct (transcode_cases B store cfg imgs)
      as [ [ps Hps] | (pre & bad & post & ps & -> & Hpre & Hbad) ].
    + right.
      destruct (generateAsync B (addAll JSZip.empty ps)) as [content | ] eqn:Hgen.
      * right. split; [ reflexivity | ]. exists ps, content.
        repeat split; try assumption. exact (run_done Himport Hps Hgen).
      * left. split; [ reflexivity | ]. exists ps.
        repeat split; try assumption.
        exact (run_generate_fails _ _ _ Himport Hps Hgen).
    + left. split; [ reflexivity | ]. exists pre, bad, post, ps.
      repeat split; try assumption.
      exact (run_stuck post Himport Hpre Hbad).
  - left. split; [ reflexivity | ].
    exact (run_import_fails _ _ _ imgs Himport).
Qed.

End Endings.

Lemma transcoded_all_load (B : Browser) (store : URLStore) (cfg : Settings)
    (imgs : list Img.t) (ps : list Processed.t) :
  transcoded B store cfg imgs ps ->
  forall item, In item imgs -> loadImage B store (Img.preview item) <> None.
Proof.
  induction 1 as [ | it p imgs ps Hp _ IH ]; intros item Hin.
  - destruct Hin.
  - destruct Hin as [ <- | Hin ]; [ | now apply IH ].
    intros Hnone. apply (transcode_None B store cfg) in Hnone. congruence.
Qed.

Lemma In_not_reset (l : list Effect) :
  (forall e, In e l ->
     (exists u, e = ImgSrc u) \/ (exists v, e = SetProgress v)
     \/ e = SetIsProcessing true) ->
  ~ In (SetIsProcessing false) l.
Proof.
  intros H Hin.
  destruct (H _ Hin) as [ [u E] | [ [v E] | E ] ]; discriminate.
Qed.

(** X7.  [processAndDownload] never rejects: every error is caught.  When
    it returns, its first two effects set [isProcessing] and reset the
    progress, its last two clear [isProcessing] and reset the progress
    again, and in between it has either offered exactly one download, named
    [resized-images.zip], and shown no alert, or shown exactly one alert and
    offered no download. *)
Theorem run_never_rejects (B : Browser) (store : URLStore) (cfg : Settings)
    (imgs : list Img.t) :
  let r := processAndDownload B store cfg imgs in
  (forall e, outcome r <> Thrown e)
  /\ (outcome r = Returned tt ->
      (exists body,
         effects r
         = [SetIsProcessing true; SetProgress 0%float] ++ body
           ++ [SetIsProcessing false; SetProgress 0%float])
      /\ ((alertsOf (effects r) = []
           /\ exists content,
                downloads (effects r) = [("resized-images.zip", content)])
          \/ (alertsOf (effects r)
              = ["Error processing images. Please try again."]
              /\ downloads (effects r) = []))).
Proof.
  intros r.
  destruct (run_cases B store cfg imgs)
    as [ (_ & E) | [ (_ & pre & bad & post & ps & _ & _ & _ & E)
       | [ (_ & ps & _ & _ & E) | (_ & ps & content & _ & _ & E) ] ] ];
    fold r in E; rewrite E; unfold outcome, effects; cbn [fst snd].
  - split; [ discriminate | intros _ ]. split.
    + exists [ConsoleError "Error processing images:" ImportError;
              Alert "Error processing images. Please try again."].
      reflexivity.
    + right. split; reflexivity.
  - split; [ discriminate | discriminate ].
  - split; [ discriminate | intros _ ]. split.
    + exists (loopEffects (length imgs) 0 imgs
              ++ [GenerateAsync (addAll JSZip.empty ps);
                  ConsoleError "Error processing images:" GenerateError;
                  Alert "Error processing images. Please try again."]).
      unfold errorReport. now rewrite <- !app_assoc.
    + right.
      rewrite !alertsOf_app, !downloads_app, alertsOf_loopEffects,
        downloads_loopEffects.
      split; reflexivity.
  - split; [ discriminate | intros _ ]. split.
    + exists (loopEffects (length imgs) 0 imgs
              ++ [GenerateAsync (addAll JSZip.empty ps);
                  Download "resized-images.zip" content]).
      now rewrite <- !app_assoc.
    + left.
      rewrite !alertsOf_app, !downloads_app, alertsOf_loopEffects,
        downloads_loopEffects.
      split; [ reflexivity | exists content; reflexivity ].
Qed.

Lemma run_never_rejects_witness :
  alertsOf (effects (Demo.run Demo.pageAB)) = []
  /\ exists content,
       downloads (effects (Demo.run Demo.pageAB))
       = [("resized-images.zip", content)].
Proof.
  destruct (run_never_rejects Demo.browser (objectURLs Demo.pageAB)
              Demo.defaults (images Demo.pageAB)) as (_ & Hret).
  destruct Hret as (_ & [ Hok | (Halert & _) ]).
  - vm_compute. reflexivity.
  - exact Hok.
  - vm_compute in Halert. discriminate Halert.
Defined.

(** X8.  A run stays suspended exactly when the archive library was
    imported and some item of the batch does not load.  A suspended run has
    not cleared [isProcessing], shown no alert and offered no download. *)
Theorem run_suspends_iff (B : Browser) (store : URLStore) (cfg : Settings)
    (imgs : list Img.t) :
  let r := processAndDownload B store cfg imgs in
  (outcome r = Pending <->
     importJSZip B = true
     /\ exists item,
          In item imgs /\ loadImage B store (Img.preview item) = None)
  /\ (outcome r = Pending ->
      ~ In (SetIsProcessing false) (effects r)
      /\ alertsOf (effects r) = []
      /\ downloads (effects r) = []).
Proof.
  intros r.
  destruct (run_cases B store cfg imgs)
    as [ (Himport & E) | [ (Himport & pre & bad & post & ps & Himgs & _ & Hbad & E)
       | [ (Himport & ps & Hps & _ & E) | (Himport & ps & content & Hps & _ & E) ] ] ];
    fold r in E; rewrite E; unfold outcome, effects; cbn [fst snd].
  - split; [ split | discriminate ]; [ discriminate | ].
    intros [Htrue _]. congruence.
  - split; [ split | intros _ ].
    + intros _. split; [ assumption | ]. exists bad. split.
      * rewrite Himgs. apply in_or_app. right. now left.
      * now apply (transcode_None B store cfg).
    + reflexivity.
    + rewrite !alertsOf_app, !downloads_app, alertsOf_loopEffects,
        downloads_loopEffects.
      split; [ | split; reflexivity ].
      apply In_not_reset. intros e Hin.
      apply in_app_or in Hin as [ [ <- | [ <- | [] ] ] | Hin ]; eauto.
      apply in_app_or in Hin as [ Hin | [ <- | [] ] ]; eauto.
      apply In_loopEffects in Hin as [ H | H ]; eauto.
  - split; [ split | discriminate ]; [ discriminate | ].
    intros (_ & item & Hin & Hnone).
    now apply (transcoded_all_load _ _ _ _ _ Hps item Hin) in Hnone.
  - split; [ split | discriminate ]; [ discriminate | ].
    intros (_ & item & Hin & Hnone).
    now apply (transcoded_all_load _ _ _ _ _ Hps item Hin) in Hnone.
Qed.

Lemma run_suspends_iff_witness :
  outcome (Demo.run Demo.pageBad) = Pending
  /\ alertsOf (effects (Demo.run Demo.pageBad)) = [].
Proof.
  destruct (run_suspends_iff Demo.browser (objectURLs Demo.pageBad)
              Demo.defaults (images Demo.pageBad)) as (Hiff & Hstuck).
  assert (Hp : outcome (Demo.run Demo.pageBad) = Pending).
  { apply Hiff. split; [ reflexivity | ].
    exists (Demo.item 1 (Demo.png "bad.png" Demo.corrupt)).
    split; [ vm_compute; auto | vm_compute; reflexivity ]. }
  split; [ exact Hp | ]. now apply Hstuck.
Defined.

(** X9.  The two error paths.  When the archive library cannot be imported,
    no image is loaded and no progress is reported besides the two resets.
    When every image loads but serializing the archive fails, every image
    has been loaded and its percentage reported before the error.  Either
    way the user gets the one alert and no download. *)
Theorem run_error_paths (B : Browser) (store : URLStore) (cfg : Settings)
    (imgs : list Img.t) :
  let r := processAndDownload B store cfg imgs in
  let n := length imgs in
  (importJSZip B = false ->
     loads (effects r) = []
     /\ progressValues (effects r) = [0%float; 0%float]
     /\ archives (effects r) = []
     /\ alertsOf (effects r) = ["Error processing images. Please try again."]
     /\ downloads (effects r) = [])
  /\ (importJSZip B = true ->
      (forall item, In item imgs ->
         loadImage B store (Img.preview item) <> None) ->
      (forall zip, generateAsync B zip = None) ->
      loads (effects r) = map Img.preview imgs
      /\ progressValues (effects r)
         = [0%float] ++ map (fun i => progressAfter i n) (seq 0 n) ++ [0%float]
      /\ alertsOf (effects r) = ["Error processing images. Please try again."]
      /\ downloads (effects r) = []).
Proof.
  intros r n. split.
  - intros Himport. subst r.
    rewrite (run_import_fails _ _ _ imgs Himport). repeat split.
  - intros Himport Hload Hgen. subst r.
    destruct (transcoded_of_loaded cfg Hload) as [ps Hps].
    rewrite (run_generate_fails _ _ _ Himport Hps (Hgen _)).
    unfold effects; cbn [fst].
    rewrite !loads_app, !progressValues_app, !alertsOf_app, !downloads_app,
      loads_loopEffects, progressValues_loopEffects, alertsOf_loopEffects,
      downloads_loopEffects.
    repeat split. simpl. apply app_nil_r.
Qed.

Lemma run_error_paths_witness :
  let offline :=
    {| decode := Demo.toyDecode; toBlob := Demo.toyToBlob;
       importJSZip := false; generateAsync := Demo.toyGenerate |} in
  let r := processAndDownload offline (objectURLs Demo.pageAB) Demo.defaults
             (images Demo.pageAB) in
  loads (effects r) = [] /\ downloads (effects r) = [].
Proof.
  intros offline r.
  destruct (run_error_paths offline (objectURLs Demo.pageAB) Demo.defaults
              (images Demo.pageAB)) as (Himport & _).
  destruct Himport as (Hloads & _ & _ & _ & Hdl); [ reflexivity | ].
  exact (conj Hloads Hdl).
Defined.

(** ** The archive when names repeat *)

Lemma file_names (zip : JSZip.t) (name : string) (data : Blob) :
  JSZip.names (JSZip.file zip name data)
  = if existsb (String.eqb name) (JSZip.names zip) then JSZip.names zip
    else JSZip.names zip ++ [name].
Proof.
  induction zip as [ | [k v] rest IH ]; simpl.
  - reflexivity.
  - rewrite (String.eqb_sym name k).
    destruct (String.eqb k name); simpl; [ reflexivity | ].
    fold (JSZip.names rest). rewrite IH.
    now destruct (existsb (String.eqb name) (JSZip.names rest)).
Qed.

Lemma existsb_eqb_In (name : string) (l : list string) :
  existsb (String.eqb name) l = true <-> In name l.
Proof.
  rewrite existsb_exists. split.
  - intros (x & Hin & Heq). apply String.eqb_eq in Heq. now subst.
  - intros Hin. exists name. split; [ assumption | apply String.eqb_refl ].
Qed.

Lemma file_names_NoDup (zip : JSZip.t) (name : string) (data : Blob) :
  NoDup (JSZip.names zip) -> NoDup (JSZip.names (JSZip.file zip name data)).
Proof.
  intros Hnd. rewrite file_names.
  destruct (existsb (String.eqb name) (JSZip.names zip)) eqn:E;
    [ assumption | ].
  apply NoDup_app; [ assumption | repeat constructor; intros [] | ].
  intros a Hin [ <- | [] ].
  apply existsb_eqb_In in Hin. congruence.
Qed.

Lemma file_names_In (zip : JSZip.t) (name : string) (data : Blob) (k : string) :
  In k (JSZip.names (JSZip.file zip name data))
  <-> In k (JSZip.names zip) \/ k = name.
Proof.
  rewrite file_names.
  destruct (existsb (String.eqb name) (JSZip.names zip)) eqn:E.
  - apply existsb_eqb_In in E. split; [ now left | ].
    intros [ H | -> ]; assumption.
  - rewrite in_app_iff. simpl. intuition (subst; auto).
Qed.

Lemma file_In_new (zip : JSZip.t) (name : string) (data : Blob) :
  In (name, data) (JSZip.file zip name data).
Proof.
  induction zip as [ | [k v] rest IH ]; simpl.
  - now left.
  - destruct (String.eqb_spec k name) as [ -> | _ ]; [ now left | now right ].
Qed.

Lemma file_In_other (zip : JSZip.t) (name : string) (data : Blob)
    (k : string) (v : Blob) :
  k <> name -> In (k, v) zip -> In (k, v) (JSZip.file zip name data).
Proof.
  intros Hne. induction zip as [ | [k' v'] rest IH ]; simpl; intros Hin.
  - destruct Hin.
  - destruct (String.eqb_spec k' name) as [ -> | _ ].
    + destruct Hin as [ E | Hin ]; [ congruence | now right ].
    + destruct Hin as [ E | Hin ]; [ now left | right; now apply IH ].
Qed.

Lemma file_length (zip : JSZip.t) (name : string) (data : Blob) :
  length (JSZip.file zip name data) <= S (length zip).
Proof.
  induction zip as [ | [k v] rest IH ]; simpl; [ lia | ].
  destruct (String.eqb k name); simpl; lia.
Qed.

Lemma addAll_app (zip : JSZip.t) (ps qs : list Processed.t) :
  addAll zip (ps ++ qs) = addAll (addAll zip ps) qs.
Proof. unfold addAll. apply fold_left_app. Qed.

Lemma addAll_facts (ps : list Processed.t) :
  forall zip,
    NoDup (JSZip.names zip) ->
    NoDup (JSZip.names (addAll zip ps))
    /\ length (addAll zip ps) <= length zip + length ps
    /\ (forall k, In k (JSZip.names (addAll zip ps))
          <-> In k (JSZip.names zip) \/ In k (map (fun p => fst (entryOf p)) ps))
    /\ (forall k v, In (k, v) zip ->
          ~ In k (map (fun p => fst (entryOf p)) ps) ->
          In (k, v) (addAll zip ps)).
Proof.
  induction ps as [ | p ps IH ]; intros zip Hnd.
  - simpl. repeat split; auto; try lia. intros [ H | [] ]; exact H.
  - change (addAll zip (p :: ps))
      with (addAll (JSZip.file zip (fst (entryOf p)) (snd (entryOf p))) ps).
    destruct (IH _ (file_names_NoDup zip (fst (entryOf p)) (snd (entryOf p)) Hnd))
      as (Hnd' & Hlen & Hnames & Hkeep).
    split; [ exact Hnd' | split; [ | split ] ].
    + pose proof (file_length zip (fst (entryOf p)) (snd (entryOf p))).
      change (length (p :: ps)) with (S (length ps)). lia.
    + intros k. rewrite Hnames, file_names_In. simpl. intuition auto.
    + intros k v Hin Hnot. apply Hkeep.
      * apply file_In_other; [ | assumption ].
        intros ->. apply Hnot. now left.
      * intros H. apply Hnot. now right.
Qed.

(** X10.  When names repeat, later items replace earlier ones.  The archive
    built from the processed images never holds two entries of the same
    name and never more entries than there are images; every image's name
    has an entry; and the entry of a name holds the blob of the last image
    with that name. *)
Theorem archive_last_wins (ps : list Processed.t) :
  let zip := addAll JSZip.empty ps in
  NoDup (JSZip.names zip)
  /\ length zip <= length ps
  /\ (forall k, In k (JSZip.names zip)
        <-> exists p, In p ps /\ k = ("resized-" ++ Processed.name p)%string)
  /\ (forall before p after,
        ps = before ++ p :: after ->
        ~ In (Processed.name p) (map Processed.name after) ->
        In (("resized-" ++ Processed.name p)%string, Processed.blob p) zip).
Proof.
  intros zip. subst zip.
  destruct (addAll_facts ps JSZip.empty) as (Hnd & Hlen & Hnames & _);
    [ constructor | ].
  split; [ exact Hnd | split; [ exact Hlen | split ] ].
  - intros k. rewrite Hnames. simpl. split.
    + intros [ [] | Hin ]. apply in_map_iff in Hin as (p & <- & Hp).
      exists p. split; [ assumption | reflexivity ].
    + intros (p & Hp & ->). right.
      apply in_map_iff. exists p. split; [ reflexivity | assumption ].
  - intros before p after -> Hlast.
    replace (before ++ p :: after) with ((before ++ [p]) ++ after)
      by now rewrite <- app_assoc.
    rewrite addAll_app.
    destruct (addAll_facts (before ++ [p]) JSZip.empty) as (Hnd1 & _);
      [ constructor | ].
    destruct (addAll_facts after (addAll JSZip.empty (before ++ [p])) Hnd1)
      as (_ & _ & _ & Hkeep).
    apply Hkeep.
    + rewrite addAll_app. apply (file_In_new _ _ (Processed.blob p)).
    + intros Hin. apply Hlast.
      apply in_map_iff in Hin as (q & Hq & Hin).
      apply resized_name_inj in Hq. rewrite <- Hq. now apply in_map.
Qed.

Lemma archive_last_wins_witness :
  let first := {| Processed.blob := [Byte.x01]; Processed.name := "a.png" |} in
  let other := {| Processed.blob := [Byte.x02]; Processed.name := "b.png" |} in
  let again := {| Processed.blob := [Byte.x03]; Processed.name := "a.png" |} in
  In ("resized-a.png", [Byte.x03]) (addAll JSZip.empty [first; other; again])
  /\ addAll JSZip.empty [first; other; again]
     = [("resized-a.png", [Byte.x03]); ("resized-b.png", [Byte.x02])].
Proof.
  intros first other again.
  destruct (archive_last_wins [first; other; again]) as (_ & _ & _ & Hlast).
  split; [ | reflexivity ].
  apply (Hlast [first; other] again []); [ reflexivity | intros [] ].
Defined.

(** ** Runs on reachable batches *)

Lemma outcome_pending_iff (B : Browser) (store : URLStore) (cfg : Settings)
    (imgs : list Img.t) :
  outcome (processAndDownload B store cfg imgs) = Pending
  <-> importJSZip B = true
      /\ exists item,
           In item imgs /\ loadImage B store (Img.preview item) = None.
Proof.
  destruct (run_cases B store cfg imgs)
    as [ (Himport & E) | [ (Himport & pre & bad & post & ps & Himgs & _ & Hbad & E)
       | [ (Himport & ps & Hps & _ & E) | (Himport & ps & content & Hps & _ & E) ] ] ];
    rewrite E; unfold outcome; cbn [snd].
  - split; [ discriminate | ]. intros [Htrue _]. congruence.
  - split; [ | reflexivity ].
    intros _. split; [ assumption | ]. exists bad. split.
    + rewrite Himgs. apply in_or_app. right. now left.
    + now apply (transcode_None B store cfg).
  - split; [ discriminate | ].
    intros (_ & item & Hin & Hnone).
    now apply (transcoded_all_load _ _ _ _ _ Hps item Hin) in Hnone.
  - split; [ discriminate | ].
    intros (_ & item & Hin & Hnone).
    now apply (transcoded_all_load _ _ _ _ _ Hps item Hin) in Hnone.
Qed.

Lemma loadImage_of_itemOK (B : Browser) (store : URLStore) (item : Img.t) :
  itemOK store item ->
  (loadImage B store (Img.preview item) = None
   <-> decode B (File.bytes (Img.file item)) = None).
Proof.
  intros (Hurl & _). unfold loadImage. rewrite Hurl.
  destruct (decode B (File.bytes (Img.file item))) as [ [w h] | ];
    split; congruence.
Qed.

(** X11.  For a batch reached from the empty one by drops, selections and
    removals, run on the page's own object URLs: the run stays suspended
    exactly when the archive library was imported and the bytes of some
    item's file do not decode; and when a non-empty batch completes
    normally, the percentages reported by the loop lie between 0 and 100,
    never decrease and end at exactly 100. *)
Theorem reachable_run (B : Browser) (cfg : Settings) (actions : list Action)
    (store : URLStore) (shown : list string) :
  let p := afterActions actions
             {| images := []; objectURLs := store; alerts := shown |} in
  let r := processAndDownload B (objectURLs p) cfg (images p) in
  let n := length (images p) in
  (outcome r = Pending <->
     importJSZip B = true
     /\ exists item,
          In item (images p)
          /\ decode B (File.bytes (Img.file item)) = None)
  /\ (images p <> [] -> completedNormally r ->
      progressValues (effects r)
      = [0%float] ++ map (fun i => progressAfter i n) (seq 0 n) ++ [0%float]
      /\ Forall percentage (map (fun i => progressAfter i n) (seq 0 n))
      /\ nondecreasing (map (fun i => progressAfter i n) (seq 0 n))
      /\ last (map (fun i => progressAfter i n) (seq 0 n)) 0%float
         = 100%float).
Proof.
  intros p r n.
  assert (W : wellFormed p).
  { apply wellFormed_afterActions. repeat split; simpl; try constructor. lia. }
  destruct W as (Hlen & _ & Hok). rewrite Forall_forall in Hok.
  split.
  - subst r. rewrite outcome_pending_iff. split.
    + intros (Himport & item & Hin & Hnone). split; [ assumption | ].
      exists item. split; [ assumption | ].
      now apply (loadImage_of_itemOK B _ _ (Hok item Hin)).
    + intros (Himport & item & Hin & Hnone). split; [ assumption | ].
      exists item. split; [ assumption | ].
      now apply (loadImage_of_itemOK B _ _ (Hok item Hin)).
  - intros Hne Hdone. split.
    + subst r. destruct (completed_inv Hdone) as (ps & content & _ & _ & ->).
      unfold effects; cbn [fst].
      rewrite !progressValues_app, progressValues_loopEffects. reflexivity.
    + apply loopProgress_facts. subst n.
      destruct (images p); [ contradiction | simpl in *; lia ].
Qed.

Lemma reachable_run_witness :
  let p := afterActions
             [Drop (Some [Demo.png "a.png" Demo.img400x300;
                          Demo.png "bad.png" Demo.corrupt]);
              Remove 1;
              FileInput (Some [Demo.notes; Demo.png "b.png" Demo.img400x300])]
             Demo.emptyPage in
  map Img.name (images p) = ["a.png"; "b.png"]
  /\ last (map (fun i => progressAfter i 2) (seq 0 2)) 0%float = 100%float.
Proof.
  intros p. split; [ reflexivity | ].
  destruct (reachable_run Demo.browser Demo.defaults
              [Drop (Some [Demo.png "a.png" Demo.img400x300;
                           Demo.png "bad.png" Demo.corrupt]);
               Remove 1;
               FileInput (Some [Demo.notes; Demo.png "b.png" Demo.img400x300])]
              [] []) as (_ & Hdone).
  destruct Hdone as (_ & _ & _ & Hlast).
  - vm_compute. discriminate.
  - split; vm_compute; reflexivity.
  - exact Hlast.
Defined.

(** ** What the page shows during a run *)

Lemma statuses_app (l1 l2 : list Effect) :
  forall s,
    statuses s (l1 ++ l2)
    = statuses s l1 ++ statuses (fold_left setState l1 s) l2.
Proof.
  induction l1 as [ | e l1 IH ]; intros s; simpl.
  - reflexivity.
  - now rewrite IH.
Qed.

(** While no effect clears [isProcessing], it stays set. *)
Lemma statuses_busy (l : list Effect) :
  (forall e, In e l -> e <> SetIsProcessing false) ->
  forall s,
    isProcessing s = true ->
    Forall (fun s' => isProcessing s' = true) (statuses s l)
    /\ isProcessing (fold_left setState l s) = true.
Proof.
  induction l as [ | e l IH ]; intros Hl s Hs; simpl.
  - split; [ constructor | assumption ].
  - assert (He : isProcessing (setState s e) = true).
    { destruct e as [ [ | ] | | | | | | ]; simpl; try assumption;
        try reflexivity.
      exfalso. apply (Hl (SetIsProcessing false)); [ now left | reflexivity ]. }
    destruct (IH (fun e' H => Hl e' (or_intror H)) _ He) as [Hall Hend].
    split; [ constructor; assumption | assumption ].
Qed.

Lemma loopEffects_no_reset (len i : nat) (items : list Img.t) (e : Effect) :
  In e (loopEffects len i items) -> e <> SetIsProcessing false.
Proof.
  intros Hin. apply In_loopEffects in Hin as [ [u ->] | [v ->] ]; discriminate.
Qed.

(** Every run sets [isProcessing] first and clears it only at the very
    end, if it returns. *)
Lemma run_shape (B : Browser) (store : URLStore) (cfg : Settings)
    (imgs : list Img.t) :
  let r := processAndDownload B store cfg imgs in
  exists body,
    (forall e, In e body -> e <> SetIsProcessing false)
    /\ ((outcome r = Pending /\ effects r = SetIsProcessing true :: body)
        \/ (outcome r = Returned tt
            /\ effects r
               = SetIsProcessing true :: body
                 ++ [SetIsProcessing false; SetProgress 0%float])).
Proof.
  intros r.
  destruct (run_cases B store cfg imgs)
    as [ (_ & E) | [ (_ & pre & bad & post & ps & _ & _ & _ & E)
       | [ (_ & ps & _ & _ & E) | (_ & ps & content & _ & _ & E) ] ] ];
    fold r in E; rewrite E; unfold outcome, effects; cbn [fst snd].
  - exists [SetProgress 0%float;
            ConsoleError "Error processing images:" ImportError;
            Alert "Error processing images. Please try again."].
    split; [ | right; split; reflexivity ].
    intros e [ <- | [ <- | [ <- | [] ] ] ]; discriminate.
  - exists (SetProgress 0%float :: loopEffects (length imgs) 0 pre
            ++ [ImgSrc (Img.preview bad)]).
    split; [ | left; split; reflexivity ].
    intros e [ <- | Hin ]; [ discriminate | ].
    apply in_app_or in Hin as [ Hin | [ <- | [] ] ];
      [ eapply loopEffects_no_reset, Hin | discriminate ].
  - exists (SetProgress 0%float :: loopEffects (length imgs) 0 imgs
            ++ [GenerateAsync (addAll JSZip.empty ps);
                ConsoleError "Error processing images:" GenerateError;
                Alert "Error processing images. Please try again."]).
    split.
    + intros e [ <- | Hin ]; [ discriminate | ].
      apply in_app_or in Hin as [ Hin | [ <- | [ <- | [ <- | [] ] ] ] ];
        [ eapply loopEffects_no_reset, Hin | discriminate .. ].
    + right. split; [ reflexivity | ].
      unfold errorReport. simpl. now rewrite <- !app_assoc.
  - exists (SetProgress 0%float :: loopEffects (length imgs) 0 imgs
            ++ [GenerateAsync (addAll JSZip.empty ps);
                Download "resized-images.zip" content]).
    split.
    + intros e [ <- | Hin ]; [ discriminate | ].
      apply in_app_or in Hin as [ Hin | [ <- | [ <- | [] ] ] ];
        [ eapply loopEffects_no_reset, Hin | discriminate .. ].
    + right. split; [ reflexivity | ].
      simpl. now rewrite <- !app_assoc.
Qed.

(** X12.  The download button is disabled throughout a run.  From whatever
    state the run starts, the button is disabled after each of its effects
    until [isProcessing] is cleared; a suspended run leaves it disabled for
    good; a run that returns ends with [isProcessing] cleared, the progress
    at 0, the bar hidden, the label back to its idle text, and the button
    enabled again exactly when the batch is not empty. *)
Theorem button_disabled_during_run (B : Browser) (store : URLStore)
    (cfg : Settings) (imgs : list Img.t) (s0 : Status) :
  let r := processAndDownload B store cfg imgs in
  let shown := statuses s0 (effects r) in
  (outcome r = Pending ->
     shown <> []
     /\ Forall (fun s => downloadDisabled imgs s = true) shown)
  /\ (outcome r = Returned tt ->
      exists busy cleared final,
        shown = busy ++ [cleared; final]
        /\ busy <> []
        /\ Forall (fun s => downloadDisabled imgs s = true) busy
        /\ isProcessing final = false
        /\ progress final = 0%float
        /\ progressBarShown final = false
        /\ processingLabel final = None
        /\ downloadDisabled imgs final = (length imgs =? 0)%nat).
Proof.
  intros r shown. subst shown.
  destruct (run_shape B store cfg imgs) as (body & Hbody & Hend). fold r in Hend.
  assert (Hbusy : forall l, (forall e, In e l -> e <> SetIsProcessing false) ->
            Forall (fun s => downloadDisabled imgs s = true)
              (statuses s0 (SetIsProcessing true :: l))
            /\ isProcessing (fold_left setState (SetIsProcessing true :: l) s0)
               = true).
  { intros l Hl. simpl.
    destruct (statuses_busy l Hl (setState s0 (SetIsProcessing true)) eq_refl)
      as [Hall Hlast].
    split; [ | exact Hlast ].
    constructor; [ unfold downloadDisabled; simpl; apply orb_true_r | ].
    eapply Forall_impl; [ | exact Hall ].
    intros s Hs. unfold downloadDisabled. rewrite Hs. apply orb_true_r. }
  destruct Hend as [ (Hout & ->) | (Hout & ->) ]; rewrite Hout.
  - split; [ intros _ | discriminate ].
    split; [ simpl; discriminate | apply Hbusy, Hbody ].
  - split; [ discriminate | intros _ ].
    destruct (Hbusy body Hbody) as [Hall Hlast].
    change (SetIsProcessing true :: body
            ++ [SetIsProcessing false; SetProgress 0%float])
      with ((SetIsProcessing true :: body)
            ++ [SetIsProcessing false; SetProgress 0%float]).
    rewrite statuses_app. cbn [statuses].
    set (s1 := fold_left setState (SetIsProcessing true :: body) s0) in *.
    exists (statuses s0 (SetIsProcessing true :: body)),
      (setState s1 (SetIsProcessing false)),
      (setState (setState s1 (SetIsProcessing false)) (SetProgress 0%float)).
    split; [ reflexivity | ].
    split; [ simpl; discriminate | ].
    split; [ exact Hall | ].
    repeat split. unfold downloadDisabled. simpl. apply orb_false_r.
Qed.

Lemma button_disabled_during_run_witness :
  Forall (fun s => downloadDisabled (images Demo.pageBad) s = true)
    (statuses initialStatus (effects (Demo.run Demo.pageBad))).
Proof.
  destruct (button_disabled_during_run Demo.browser (objectURLs Demo.pageBad)
              Demo.defaults (images Demo.pageBad) initialStatus)
    as (Hpending & _).
  destruct Hpending as (_ & Hall); [ vm_compute; reflexivity | exact Hall ].
Defined.

(** ** The percentage on the button *)

Lemma forallb_seq (f : nat -> bool) (start len : nat) :
  forallb f (seq start len) = true ->
  forall i, start <= i < start + len -> f i = true.
Proof.
  intros Hall i Hi. rewrite forallb_forall in Hall.
  apply Hall, in_seq, Hi.
Qed.

(** X13.  What the user sees after each item of a batch of 1 to 30 items:
    the progress bar is shown, and the button reads [Processing (N%)] with
    [N] a whole number between 1 and 100 that never goes down from one item
    to the next and is 100 after the last item.  Before the first item is
    done the progress is 0 and the bar is hidden. *)
Theorem progress_display (n i : nat) :
  1 <= n <= 30 -> i < n ->
  let after k := {| isProcessing := true; progress := progressAfter k n |} in
  let label k := Math_round (progressAfter k n) in
  progressBarShown {| isProcessing := true; progress := 0 |} = false
  /\ progressBarShown (after i) = true
  /\ processingLabel (after i) = Some (label i)
  /\ Num.isInteger (label i) = true
  /\ PrimFloat.leb 1 (label i) = true
  /\ PrimFloat.leb (label i) 100 = true
  /\ (0 < i -> PrimFloat.leb (label (i - 1)) (label i) = true)
  /\ (S i = n -> PrimFloat.eqb (label i) 100 = true).
Proof.
  intros Hn Hi after label.
  assert (Hcheck : displayCheck n i = true).
  { apply (forallb_seq (fun i => displayCheck n i) 0 n); [ | lia ].
    apply (forallb_seq
             (fun n => forallb (fun i => displayCheck n i) (seq 0 n)) 1 30);
      [ vm_compute; reflexivity | lia ]. }
  unfold displayCheck in Hcheck. fold after label in Hcheck.
  apply andb_true_iff in Hcheck as [Hcheck Hlast].
  apply andb_true_iff in Hcheck as [Hcheck Hmono].
  apply andb_true_iff in Hcheck as [Hcheck Hle].
  apply andb_true_iff in Hcheck as [Hcheck Hge].
  apply andb_true_iff in Hcheck as [Hbar Hint].
  repeat split; try assumption.
  - intros Hpos. destruct (Nat.eqb_spec i 0); [ lia | assumption ].
  - intros Hend. destruct (Nat.eqb_spec (S i) n); [ assumption | lia ].
Qed.

Lemma progress_display_witness :
  processingLabel {| isProcessing := true; progress := progressAfter 1 3 |}
  = Some 67%float.
Proof.
  destruct (progress_display 3 1) as (_ & _ & Hlabel & _); [ lia | lia | ].
  rewrite Hlabel. vm_compute. reflexivity.
Defined.

(** ** Images with the ratio of the box *)

(** X14.  For every setting of the two sliders and every image 1 to 10
    times the size of the box, with [preserveAspectRatio] on, the planned
    height is the requested height and the planned width is within one unit
    in the last place of the requested width: the requested width itself or
    one of the two doubles next to it. *)
Theorem same_ratio_plan (w h k : Z) :
  In w sliderValues -> In h sliderValues -> (1 <= k <= 10)%Z ->
  let planned := targetSize (k * w) (k * h) w h true in
  PrimFloat.eqb (targetHeight planned) (Num.ofZ h) = true
  /\ PrimFloat.leb (PrimFloat.next_down (Num.ofZ w)) (targetWidth planned) = true
  /\ PrimFloat.leb (targetWidth planned) (PrimFloat.next_up (Num.ofZ w)) = true.
Proof.
  intros Hw Hh Hk planned.
  assert (Hcheck : sameRatioCheck w h k = true).
  { assert (Hall : forallb
                     (fun w => forallb
                        (fun h => forallb (sameRatioCheck w h) (rangeZ 1 10))
                        sliderValues)
                     sliderValues = true) by (vm_compute; reflexivity).
    rewrite forallb_forall in Hall. specialize (Hall w Hw).
    rewrite forallb_forall in Hall. specialize (Hall h Hh).
    apply (forall_rangeZ _ 1 10 Hall). lia. }
  unfold sameRatioCheck in Hcheck. fold planned in Hcheck.
  apply andb_true_iff in Hcheck as [Hcheck Hup].
  apply andb_true_iff in Hcheck as [Hheight Hdown].
  repeat split; assumption.
Qed.

Lemma same_ratio_plan_witness :
  let planned := targetSize 500 2900 250 1450 true in
  PrimFloat.eqb (targetHeight planned) 1450 = true
  /\ PrimFloat.leb (PrimFloat.next_down 250) (targetWidth planned) = true
  /\ PrimFloat.leb (targetWidth planned) (PrimFloat.next_up 250) = true.
Proof.
  apply (same_ratio_plan 250 1450 2).
  - vm_compute. tauto.
  - vm_compute. tauto.
  - lia.
Defined.

(** ** What the settings can change *)

Lemma addAll_names (ps1 ps2 : list Processed.t) :
  map Processed.name ps1 = map Processed.name ps2 ->
  forall zip1 zip2,
    JSZip.names zip1 = JSZip.names zip2 ->
    JSZip.names (addAll zip1 ps1) = JSZip.names (addAll zip2 ps2).
Proof.
  revert ps2. induction ps1 as [ | p1 ps1 IH ]; intros [ | p2 ps2 ] Hnames;
    try discriminate; intros zip1 zip2 Hzip.
  - exact Hzip.
  - simpl in Hnames. injection Hnames as Hname Hrest.
    change (addAll zip1 (p1 :: ps1))
      with (addAll (JSZip.file zip1 (fst (entryOf p1)) (snd (entryOf p1))) ps1).
    change (addAll zip2 (p2 :: ps2))
      with (addAll (JSZip.file zip2 (fst (entryOf p2)) (snd (entryOf p2))) ps2).
    apply IH; [ assumption | ].
    rewrite !file_names, Hzip. unfold entryOf; simpl. now rewrite Hname.
Qed.

Lemma transcoded_other_settings (B : Browser) (store : URLStore)
    (cfg1 cfg2 : Settings) (imgs : list Img.t) (ps1 : list Processed.t) :
  transcoded B store cfg1 imgs ps1 ->
  exists ps2,
    transcoded B store cfg2 imgs ps2
    /\ map Processed.name ps2 = map Processed.name ps1.
Proof.
  induction 1 as [ | item p imgs ps Hp _ (ps2 & Hps2 & Hnames) ].
  - exists []. split; constructor.
  - unfold transcode in Hp.
    destruct (loadImage B store (Img.preview item)) as [img | ] eqn:Himg;
      [ | discriminate ].
    injection Hp as <-.
    exists ({| Processed.blob :=
                 toBlob B (resizeCanvas cfg2 img) "image/jpeg" jpegQuality;
               Processed.name := Img.name item |} :: ps2).
    split; [ constructor; [ | assumption ] | simpl; now rewrite Hnames ].
    unfold transcode. now rewrite Himg.
Qed.

(** X15.  The width, the height and the aspect-ratio switch change nothing
    but the content of the entries: two runs of the same batch under
    different settings load the same images, report the same progress, end
    the same way (returned or suspended) and give their archives the same
    entry names in the same order. *)
Theorem settings_change_content_only (B : Browser) (store : URLStore)
    (cfg1 cfg2 : Settings) (imgs : list Img.t) :
  let r1 := processAndDownload B store cfg1 imgs in
  let r2 := processAndDownload B store cfg2 imgs in
  loads (effects r1) = loads (effects r2)
  /\ progressValues (effects r1) = progressValues (effects r2)
  /\ outcome r1 = outcome r2
  /\ map JSZip.names (archives (effects r1))
     = map JSZip.names (archives (effects r2)).
Proof.
  intros r1 r2. subst r1 r2.
  destruct (importJSZip B) eqn:Himport;
    [ | rewrite !run_import_fails by assumption; repeat split ].
  assert (Hobs : forall cfg ps result,
            transcoded B store cfg imgs ps ->
            generateAsync B (addAll JSZip.empty ps) = result ->
            let r := processAndDownload B store cfg imgs in
            loads (effects r) = map Img.preview imgs
            /\ progressValues (effects r)
               = [0%float]
                 ++ map (fun i => progressAfter i (length imgs))
                      (seq 0 (length imgs)) ++ [0%float]
            /\ outcome r = Returned tt
            /\ map JSZip.names (archives (effects r))
               = [JSZip.names (addAll JSZip.empty ps)]).
  { intros cfg ps [content | ] Hps Hgen r; subst r.
    - rewrite (run_done Himport Hps Hgen).
      unfold effects, outcome; cbn [fst snd].
      rewrite !loads_app, !progressValues_app, !archives_app,
        loads_loopEffects, progressValues_loopEffects, archives_loopEffects.
      repeat split. simpl. apply app_nil_r.
    - rewrite (run_generate_fails _ _ _ Himport Hps Hgen).
      unfold effects, outcome; cbn [fst snd].
      rewrite !loads_app, !progressValues_app, !archives_app,
        loads_loopEffects, progressValues_loopEffects, archives_loopEffects.
      repeat split. simpl. apply app_nil_r. }
  destruct (transcode_cases B store cfg1 imgs)
    as [ [ps1 Hps1] | (pre & bad & post & ps1 & -> & Hpre & Hbad) ].
  - destruct (transcoded_other_settings B store cfg1 cfg2 imgs ps1 Hps1)
      as (ps2 & Hps2 & Hnames).
    destruct (Hobs cfg1 ps1 _ Hps1 eq_refl) as (L1 & P1 & O1 & A1).
    destruct (Hobs cfg2 ps2 _ Hps2 eq_refl) as (L2 & P2 & O2 & A2).
    rewrite L1, L2, P1, P2, O1, O2, A1, A2.
    repeat split. f_equal. symmetry. now apply addAll_names.
  - destruct (transcoded_other_settings B store cfg1 cfg2 pre ps1 Hpre)
      as (ps2 & Hpre2 & _).
    assert (Hbad2 : transcode B store cfg2 bad = None).
    { apply transcode_None. now apply (transcode_None B store cfg1). }
    rewrite (run_stuck post Himport Hpre Hbad),
      (run_stuck post Himport Hpre2 Hbad2).
    repeat split.
Qed.

(** * The archive of a run, whatever the names *)

(** ** The order of the entries *)

Lemma addAll_names_fold (ps : list Processed.t) :
  forall zip,
    JSZip.names (addAll zip ps)
    = fold_left
        (fun seen n =>
           if existsb (String.eqb n) seen then seen else seen ++ [n])
        (map (fun p => fst (entryOf p)) ps) (JSZip.names zip).
Proof.
  induction ps as [ | p ps IH ]; intros zip.
  - reflexivity.
  - change (addAll zip (p :: ps))
      with (addAll (JSZip.file zip (fst (entryOf p)) (snd (entryOf p))) ps).
    rewrite IH, file_names. reflexivity.
Qed.

Lemma firstAppearance_fresh (l : list string) :
  forall seen,
    NoDup (seen ++ l) ->
    fold_left
      (fun seen n =>
         if existsb (String.eqb n) seen then seen else seen ++ [n])
      l seen
    = seen ++ l.
Proof.
  induction l as [ | n l IH ]; intros seen Hnd; simpl.
  - now rewrite app_nil_r.
  - pose proof (NoDup_remove_2 _ _ _ Hnd) as Hfresh.
    destruct (existsb (String.eqb n) seen) eqn:E.
    + apply existsb_eqb_In in E. exfalso. apply Hfresh, in_or_app. now left.
    + rewrite IH; rewrite <- app_assoc; [ reflexivity | exact Hnd ].
Qed.

(** A list without repetition is its own list of first appearances. *)
Lemma firstAppearance_distinct (l : list string) :
  NoDup l -> firstAppearance l = l.
Proof. intros Hnd. exact (firstAppearance_fresh l [] Hnd). Qed.

Lemma entry_names_of_items (B : Browser) (store : URLStore) (cfg : Settings)
    (imgs : list Img.t) (ps : list Processed.t) :
  transcoded B store cfg imgs ps ->
  map (fun p => fst (entryOf p)) ps
  = map (fun item => ("resized-" ++ Img.name item)%string) imgs.
Proof.
  intros Hps.
  rewrite <- (map_map Processed.name (fun n => ("resized-" ++ n)%string)).
  rewrite (transcoded_names _ _ _ _ _ Hps). now rewrite map_map.
Qed.

(** C7, as the code has it.  Images are loaded one at a time in the order
    of the batch: in any run the loads are a prefix of the batch, and in a
    run that completes normally every item is loaded, each load being
    followed by its progress report before the next one starts.  The
    entries of the archive stand in the order in which their names first
    appear in the batch; when the names are pairwise distinct this is the
    order of the batch. *)
Theorem C7_input_order (B : Browser) (store : URLStore) (cfg : Settings)
    (imgs : list Img.t) :
  let r := processAndDownload B store cfg imgs in
  let entryNames :=
    map (fun item => ("resized-" ++ Img.name item)%string) imgs in
  (exists k, loads (effects r) = firstn k (map Img.preview imgs))
  /\ (completedNormally r ->
      loads (effects r) = map Img.preview imgs
      /\ (exists rest,
            effects r
            = [SetIsProcessing true; SetProgress 0%float]
              ++ loopEffects (length imgs) 0 imgs ++ rest
            /\ loads rest = [])
      /\ exists zip,
           archives (effects r) = [zip]
           /\ JSZip.names zip = firstAppearance entryNames
           /\ (NoDup (map Img.name imgs) -> JSZip.names zip = entryNames)).
Proof.
  intros r entryNames. split; [ apply loads_prefix | ].
  intros Hdone. subst r.
  destruct (completed_inv Hdone) as (ps & content & Hps & Hgen & ->).
  unfold effects; cbn [fst].
  split; [ | split ].
  - rewrite !loads_app, loads_loopEffects. simpl. apply app_nil_r.
  - eexists. split; reflexivity.
  - exists (addAll JSZip.empty ps). split; [ | split ].
    + rewrite !archives_app, archives_loopEffects. reflexivity.
    + rewrite addAll_names_fold, (entry_names_of_items _ _ _ _ _ Hps).
      reflexivity.
    + intros Hnd. rewrite (archive_of_distinct Hnd Hps).
      unfold JSZip.names. rewrite map_map.
      apply (entry_names_of_items _ _ _ _ _ Hps).
Qed.

Lemma C7_input_order_witness :
  loads (effects (Demo.run Demo.pageAB)) = [0; 1]
  /\ exists zip,
       archives (effects (Demo.run Demo.pageAB)) = [zip]
       /\ JSZip.names zip = ["resized-a.png"; "resized-b.png"].
Proof.
  destruct (C7_input_order Demo.browser (objectURLs Demo.pageAB)
              Demo.defaults (images Demo.pageAB)) as (_ & Hdone).
  destruct Hdone as (Hloads & _ & zip & Harchive & Hnames & _).
  - split; vm_compute; reflexivity.
  - split; [ exact Hloads | ].
    exists zip. split; [ exact Harchive | ].
    rewrite Hnames. reflexivity.
Defined.

(** C7 does not hold as stated.  A drop of [a.png] and [b.png] followed by
    a selection of another file named [a.png] gives a batch of three items
    that completes normally; its archive has two entries, and the output of
    the third item stands before the output of the second. *)
Lemma C7_counterexample :
  let r := Demo.run Demo.pageDup in
  Demo.pageDup
  = afterActions
      [Drop (Some [Demo.png "a.png" Demo.img400x300;
                   Demo.png "b.png" Demo.img800x600]);
       FileInput (Some [Demo.png "a.png" Demo.img100x800])]
      Demo.emptyPage
  /\ map Img.name (images Demo.pageDup) = ["a.png"; "b.png"; "a.png"]
  /\ (outcome r = Returned tt /\ alertsOf (effects r) = [])
  /\ loads (effects r) = [0; 1; 2]
  /\ archives (effects r)
     = [[("resized-a.png", Byte.x01 :: Demo.img100x800);
         ("resized-b.png", Byte.x01 :: Demo.img800x600)]]
  /\ transcode Demo.browser (objectURLs Demo.pageDup) Demo.defaults
       (Demo.item 2 (Demo.png "a.png" Demo.img100x800))
     = Some {| Processed.blob := Byte.x01 :: Demo.img100x800;
               Processed.name := "a.png" |}.
Proof. vm_compute. repeat split. Qed.

(** ** The entries *)

Lemma file_In_inv (zip : JSZip.t) (name : string) (data : Blob)
    (e : string * Blob) :
  In e (JSZip.file zip name data) -> In e zip \/ e = (name, data).
Proof.
  induction zip as [ | [k v] rest IH ]; simpl.
  - intros [ <- | [] ]. now right.
  - destruct (String.eqb_spec k name) as [ -> | _ ].
    + intros [ <- | Hin ]; [ now right | left; now right ].
    + intros [ <- | Hin ]; [ left; now left | ].
      destruct (IH Hin) as [ H | H ]; [ left; now right | now right ].
Qed.

Lemma addAll_In_inv (ps : list Processed.t) (e : string * Blob) :
  forall zip, In e (addAll zip ps) -> In e zip \/ In e (map entryOf ps).
Proof.
  induction ps as [ | p ps IH ]; intros zip Hin.
  - now left.
  - change (addAll zip (p :: ps))
      with (addAll (JSZip.file zip (fst (entryOf p)) (snd (entryOf p))) ps)
      in Hin.
    destruct (IH _ Hin) as [ H | H ]; [ | right; now right ].
    apply file_In_inv in H as [ H | -> ]; [ now left | ].
    right. left. now destruct (entryOf p).
Qed.

Lemma transcode_entryFor (B : Browser) (store : URLStore) (cfg : Settings)
    (item : Img.t) (p : Processed.t) :
  transcode B store cfg item = Some p ->
  entryFor B store cfg item (entryOf p)
  /\ Processed.name p = Img.name item.
Proof.
  unfold transcode, entryFor. intros Hp.
  destruct (loadImage B store (Img.preview item)) as [img | ];
    [ | discriminate ].
  injection Hp as <-. split; [ exists img; split | ]; reflexivity.
Qed.

Lemma transcoded_In_r (B : Browser) (store : URLStore) (cfg : Settings)
    (imgs : list Img.t) (ps : list Processed.t) (p : Processed.t) :
  transcoded B store cfg imgs ps -> In p ps ->
  exists item, In item imgs /\ transcode B store cfg item = Some p.
Proof.
  induction 1 as [ | item q imgs ps Hq _ IH ]; intros Hin.
  - destruct Hin.
  - destruct Hin as [ -> | Hin ].
    + exists item. split; [ now left | assumption ].
    + destruct (IH Hin) as (it & Hit & Hp). exists it.
      split; [ now right | assumption ].
Qed.

(** C8, as the code has it.  For a batch that completes normally, the
    archive that is serialized and offered for download holds one entry for
    every name that appears in the batch and nothing else: no two entries
    share a name, every entry is the entry of an item of the batch (named
    ["resized-"] followed by the item's name, with the blob encoded from
    the item's canvas), and the entry of a name holds the output of the
    last item with that name.  When the names are pairwise distinct, the
    archive holds exactly one entry for every item, in the order of the
    batch. *)
Theorem C8_archive_entries (B : Browser) (store : URLStore) (cfg : Settings)
    (imgs : list Img.t) :
  completedNormally (processAndDownload B store cfg imgs) ->
  let r := processAndDownload B store cfg imgs in
  exists zip content,
    archives (effects r) = [zip]
    /\ generateAsync B zip = Some content
    /\ downloads (effects r) = [("resized-images.zip", content)]
    /\ NoDup (JSZip.names zip)
    /\ length zip <= length imgs
    /\ (forall entry, In entry zip ->
          exists item, In item imgs /\ entryFor B store cfg item entry)
    /\ (forall before item after,
          imgs = before ++ item :: after ->
          ~ In (Img.name item) (map Img.name after) ->
          exists entry, In entry zip /\ entryFor B store cfg item entry)
    /\ (NoDup (map Img.name imgs) ->
        Forall2 (entryFor B store cfg) imgs zip).
Proof.
  intros Hdone r. subst r.
  destruct (completed_inv Hdone) as (ps & content & Hps & Hgen & ->).
  exists (addAll JSZip.empty ps), content.
  unfold effects; cbn [fst].
  rewrite !archives_app, !downloads_app, archives_loopEffects,
    downloads_loopEffects.
  destruct (addAll_facts ps JSZip.empty) as (Hnd & Hlen & _ & _);
    [ constructor | ].
  split; [ reflexivity | ]. split; [ exact Hgen | ].
  split; [ reflexivity | ]. split; [ exact Hnd | ].
  split; [ rewrite (Forall2_length Hps); exact Hlen | ].
  split; [ | split ].
  - intros entry Hin.
    apply addAll_In_inv in Hin as [ [] | Hin ].
    apply in_map_iff in Hin as (p & <- & Hp).
    destruct (transcoded_In_r _ _ _ _ _ p Hps Hp) as (item & Hitem & Htr).
    exists item. split; [ assumption | ].
    apply (transcode_entryFor _ _ _ _ _ Htr).
  - intros before item after -> Hlast.
    apply Forall2_app_inv_l in Hps as (psb & psr & Hb & Hr & ->).
    inversion Hr as [ | ? p ? psa Hp Ha ]; subst.
    destruct (transcode_entryFor _ _ _ _ _ Hp) as [Hentry Hname].
    exists (entryOf p). split; [ | exact Hentry ].
    replace (psb ++ p :: psa) with ((psb ++ [p]) ++ psa)
      by now rewrite <- app_assoc.
    rewrite addAll_app.
    destruct (addAll_facts (psb ++ [p]) JSZip.empty) as (Hnd1 & _);
      [ constructor | ].
    destruct (addAll_facts psa (addAll JSZip.empty (psb ++ [p])) Hnd1)
      as (_ & _ & _ & Hkeep).
    apply Hkeep.
    + rewrite addAll_app. apply (file_In_new _ _ (Processed.blob p)).
    + intros Hin. apply Hlast.
      apply in_map_iff in Hin as (q & Hq & Hin).
      apply resized_name_inj in Hq.
      rewrite <- Hname, <- Hq, <- (transcoded_names _ _ _ _ _ Ha).
      now apply in_map.
  - intros Hdistinct. rewrite (archive_of_distinct Hdistinct Hps).
    now apply transcoded_entries.
Qed.

Lemma C8_archive_entries_witness :
  exists zip content,
    archives (effects (Demo.run Demo.pageAB)) = [zip]
    /\ Demo.toyGenerate zip = Some content
    /\ downloads (effects (Demo.run Demo.pageAB))
       = [("resized-images.zip", content)]
    /\ NoDup (JSZip.names zip)
    /\ length zip <= 2.
Proof.
  destruct (C8_archive_entries Demo.browser (objectURLs Demo.pageAB)
              Demo.defaults (images Demo.pageAB))
    as (zip & content & Harchive & Hgen & Hdl & Hnd & Hlen & _).
  - split; vm_compute; reflexivity.
  - exists zip, content. repeat split; assumption.
Defined.

(** C8 does not hold as stated.  A drop of [a.png] and [b.png] followed by
    a selection of another file named [a.png] gives a batch whose three
    items are all transcoded and whose run completes normally, yet the
    archive has two entries: the one named [resized-a.png] holds the output
    of the third item and nothing holds the output of the first. *)
Lemma C8_counterexample :
  let r := Demo.run Demo.pageDup in
  let outputs :=
    map (transcode Demo.browser (objectURLs Demo.pageDup) Demo.defaults)
      (images Demo.pageDup) in
  map Img.name (images Demo.pageDup) = ["a.png"; "b.png"; "a.png"]
  /\ outputs
     = [Some {| Processed.blob := Byte.x01 :: Demo.img400x300;
                Processed.name := "a.png" |};
        Some {| Processed.blob := Byte.x01 :: Demo.img800x600;
                Processed.name := "b.png" |};
        Some {| Processed.blob := Byte.x01 :: Demo.img100x800;
                Processed.name := "a.png" |}]
  /\ (outcome r = Returned tt /\ alertsOf (effects r) = [])
  /\ archives (effects r)
     = [[("resized-a.png", Byte.x01 :: Demo.img100x800);
         ("resized-b.png", Byte.x01 :: Demo.img800x600)]]
  /\ length (downloads (effects r)) = 1.
Proof. vm_compute. repeat split. Qed.

(** * Two runs on the same input *)


Section TwoRuns.

Variables B1 B2 : Browser.
Variable cfg : Settings.
Variables store1 store2 : URLStore.
Hypothesis Hcodec : sameCodec B1 B2.




End TwoRuns.


